(** * CloudFormation log utilities ([taskcat/_cfn_logutils.py])

    A shallow embedding of the class [CfnLogTools]: the paginated event
    fetcher [get_cfn_stack_events], the normalizer [get_cfnlogs], the report
    writer [write_logs] and the batch driver [createcfnlogs], followed by the
    properties of the specification that concern them.

    Python dictionaries are finite maps from keys to values, the logger, the
    file system and the provider API are fields of an explicit [World] that
    every method threads, and exceptions are results of the computation. *)

From stdpp Require Import base option list gmap strings pretty.

Set Default Proof Using "Type".

(** ** Python values, exceptions and text *)

Module Py.

(** The values stored in the dictionaries this module handles: text, and the
    [datetime] of an event's [Timestamp]. *)
Inductive value : Type :=
  | Str (s : string)
  | Datetime (seconds : Z).

#[global] Instance value_eq_dec : EqDecision value.
Proof. solve_decision. Defined.

(** [a == b] on values. *)
Definition eqb (a b : value) : bool := bool_decide (a = b).

(** The exceptions that reach this module. [ClientError] is botocore's class
    for an error response of the service; botocore raises others that are
    not subclasses of it (connection failures, missing credentials), kept
    apart here as [BotoCoreError]. [KeyError] is what [d[k]] raises on a
    dictionary without [k]. *)
Inductive exn : Type :=
  | ClientError (msg : string)
  | BotoCoreError (msg : string)
  | KeyError (key : string).

(** [str(e)]. *)
Definition exn_str (e : exn) : string :=
  match e with
  | ClientError msg | BotoCoreError msg | KeyError msg => msg
  end.

(** [isinstance(e, ClientError)], the test of [except ClientError]. *)
Definition is_ClientError (e : exn) : bool :=
  match e with
  | ClientError _ => true
  | _ => false
  end.

Inductive result (A : Type) : Type :=
  | Ok (a : A)
  | Err (e : exn).
Arguments Ok {A} a.
Arguments Err {A} e.

(** [d[k]]. *)
Definition getitem (d : gmap string value) (k : string) : result value :=
  match d !! k with
  | Some v => Ok v
  | None => Err (KeyError k)
  end.

(** [k in d]. *)
Definition contains (d : gmap string value) (k : string) : bool :=
  bool_decide (is_Some (d !! k)).

(** The characters written with a backslash in the source. *)
Definition LF : string := String (Ascii.ascii_of_nat 10) EmptyString.
Definition TAB : string := String (Ascii.ascii_of_nat 9) EmptyString.
Definition BS : string := String (Ascii.ascii_of_nat 8) EmptyString.
Definition DQUOTE : string := String (Ascii.ascii_of_nat 34) EmptyString.

End Py.

Import Py.

(** ** The world the methods act on *)

Inductive Level : Type := INFO | WARNING | ERROR.

(** [PrintMsg.PASS] and [PrintMsg.NAMETAG], passed as [extra={"nametag": _}]. *)
Inductive PrintMsg : Type := PASS | NAMETAG.

Record LogRecord : Type := mkLogRecord {
  levelname : Level;
  message : string;
  nametag : option PrintMsg
}.

(** One [describe_stack_events] request: the region of the client it was
    sent through, [StackName] and the optional [NextToken]. *)
Record Request : Type := mkRequest {
  req_region : string;
  req_StackName : string;
  req_NextToken : option string
}.

(** The response dictionary of [describe_stack_events]; [NextToken] is the
    key the loop tests with [in]. *)
Record Response : Type := mkResponse {
  StackEvents : list (gmap string value);
  NextToken : option string
}.

(** A resource as [CfnResourceTools.get_resources] lists it. *)
Record Resource : Type := mkResource {
  resourceType : string;
  physicalId : string
}.

(** The dictionary [CommonTools.parse_stack_info] returns. *)
Record StackInfo : Type := mkStackInfo {
  stack_name : string;
  region : string
}.

(** [files] maps a path to the text of the file, absent when the file does
    not exist; [LOG] is what the module logger received, in order;
    [requests] the calls made to the provider, in order; [clock] counts the
    readings of [datetime.datetime.now()]. *)
Record World : Type := mkWorld {
  files : gmap string string;
  LOG : list LogRecord;
  requests : list Request;
  clock : nat
}.

Definition emit (r : LogRecord) (w : World) : World :=
  mkWorld (files w) (LOG w ++ [r]) (requests w) (clock w).

Definition sent (r : Request) (w : World) : World :=
  mkWorld (files w) (LOG w) (requests w ++ [r]) (clock w).

Definition tick (w : World) : World :=
  mkWorld (files w) (LOG w) (requests w) (S (clock w)).

(** The text of the file at [path], empty when there is none. *)
Definition content (w : World) (path : string) : string :=
  default EmptyString (files w !! path).

(** [open(path, "a")]: the file is created empty when it does not exist. *)
Definition open_append (path : string) (w : World) : World :=
  mkWorld (<[path := content w path]> (files w)) (LOG w) (requests w) (clock w).

(** [log_output.write(text)] on a file opened for appending. *)
Definition file_write (path text : string) (w : World) : World :=
  mkWorld (<[path := content w path +:+ text]> (files w))
          (LOG w) (requests w) (clock w).

(** ** Computations: state, exceptions and fuel *)

(** A run ends with a value, with an exception that propagates, or stops
    because the fuel bounding the loops and the recursion is spent. *)
Inductive outcome (A : Type) : Type :=
  | Ret (a : A)
  | Raise (e : exn)
  | OutOfFuel.
Arguments Ret {A} a.
Arguments Raise {A} e.
Arguments OutOfFuel {A}.

Definition M (A : Type) : Type := World → outcome A * World.

Definition ret {A} (a : A) : M A := λ w, (Ret a, w).

Definition bind {A B} (m : M A) (k : A → M B) : M B := λ w,
  match m w with
  | (Ret a, w1) => k a w1
  | (Raise e, w1) => (Raise e, w1)
  | (OutOfFuel, w1) => (OutOfFuel, w1)
  end.

Declare Scope run_scope.
Delimit Scope run_scope with run.
Notation "x <- m ;; k" := (bind m (λ x, k))
  (at level 100, m at next level, right associativity) : run_scope.
Notation "'exec' m ;; k" := (bind m (λ _, k))
  (at level 100, m at next level, right associativity) : run_scope.
Open Scope run_scope.

Definition act (f : World → World) : M unit := λ w, (Ret tt, f w).

Definition raise {A} (e : exn) : M A := λ w, (Raise e, w).

Definition lift {A} (r : result A) : M A :=
  match r with
  | Ok a => ret a
  | Err e => raise e
  end.

Definition LOG_info (msg : string) (extra : option PrintMsg) : M unit :=
  act (emit (mkLogRecord INFO msg extra)).
Definition LOG_warning (msg : string) (extra : option PrintMsg) : M unit :=
  act (emit (mkLogRecord WARNING msg extra)).
Definition LOG_error (msg : string) : M unit :=
  act (emit (mkLogRecord ERROR msg None)).

(** [datetime.datetime.now().strftime(fmt)], through the rendering [strftime]
    of the successive readings of the clock. *)
Definition now (strftime : nat → string) : M string := λ w,
  (Ret (strftime (clock w)), tick w).

(** [for x in xs: body(x)]: the first exception ends the loop. *)
Fixpoint for_each {A} (body : A → M unit) (xs : list A) : M unit :=
  match xs with
  | [] => ret tt
  | x :: rest => exec body x ;; for_each body rest
  end.

(** ** The collaborators

    What the module consumes and does not define: the provider client
    (the one [self._boto_client.get] hands out for a region, of which only
    [describe_stack_events] is called),
    [CommonTools.parse_stack_info], [CfnResourceTools.get_resources] with
    [include_stacks=True], [textwrap.fill], [tabulate.tabulate] with
    [headers="keys"], the rendering of the clock by [strftime] with the
    format of the source, and [str] on a [datetime]. The provider and the
    resource lister may raise; what they answer to a given call does not
    change during a run. The file system accepts every [open] and every
    [write], and knows a file by the path it was opened with: two spellings
    of one file are two keys of [files]. *)
Record Env : Type := mkEnv {
  describe_stack_events : string → string → option string → result Response;
  parse_stack_info : string → StackInfo;
  get_resources : string → string → result (list Resource);
  textwrap_fill : string → nat → string;
  tabulate : list (gmap string value) → string;
  strftime : nat → string;
  datetime_str : Z → string
}.

(** [r] then [k], for the expressions that may raise. *)
Definition and_then {A B} (r : result A) (k : A → result B) : result B :=
  match r with
  | Ok a => k a
  | Err e => Err e
  end.

Section CfnLogTools.

Context (E : Env).

(** [str(v)]. *)
Definition str (v : value) : string :=
  match v with
  | Str s => s
  | Datetime t => datetime_str E t
  end.

(** *** [get_cfn_stack_events]

    From the line after the client is obtained ([cfn_client = ...], outside
    the [try]) to the [return]: the client is in hand. *)

(** [cfn_client.describe_stack_events(...)], recorded in [requests]. *)
Definition call_describe (region stackname : string) (token : option string)
    (w : World) : result Response * World :=
  (describe_stack_events E region stackname token,
   sent (mkRequest region stackname token) w).

(** The [while "NextToken" in response] loop. The list [stack_events] is
    mutated in place, so it is returned beside the world whatever way the
    loop ends. *)
Fixpoint follow_tokens (fuel : nat) (region stackname : string)
    (response : Response) (stack_events : list (gmap string value))
    (w : World) : outcome unit * (list (gmap string value) * World) :=
  match NextToken response with
  | None => (Ret tt, (stack_events, w))
  | Some token =>
    match fuel with
    | 0 => (OutOfFuel, (stack_events, w))
    | S fuel' =>
      match call_describe region stackname (Some token) w with
      | (Err e, w1) => (Raise e, (stack_events, w1))
      | (Ok response', w1) =>
        follow_tokens fuel' region stackname response'
          (stack_events ++ StackEvents response') w1
      end
    end
  end.

(** The body of the [try]. *)
Definition try_body (fuel : nat) (region stackname : string) (w : World)
    : outcome unit * (list (gmap string value) * World) :=
  match call_describe region stackname None w with
  | (Err e, w1) => (Raise e, ([], w1))
  | (Ok response, w1) =>
    follow_tokens fuel region stackname response ([] ++ StackEvents response) w1
  end.

Definition fetch_error_message (stackname region : string) (e : exn) : string :=
  "Error trying to get the events for stack [" +:+ stackname +:+ "] in "
  +:+ "region [" +:+ region +:+ "]" +:+ BS +:+ " " +:+ exn_str e.

Definition get_cfn_stack_events (fuel : nat) (stackname region : string)
    : M (list (gmap string value)) := λ w,
  match try_body fuel region stackname w with
  | (Ret _, (stack_events, w1)) => (Ret stack_events, w1)
  | (Raise e, (stack_events, w1)) =>
    if is_ClientError e then
      (exec LOG_error (fetch_error_message stackname region e) ;;
       ret stack_events) w1
    else (Raise e, w1)
  | (OutOfFuel, (_, w1)) => (OutOfFuel, w1)
  end.

(** *** [get_cfnlogs] *)

(** One turn of the loop over [stack_events]: the dictionary
    [event_details] built from [event]. *)
Definition event_details (event : gmap string value)
    : result (gmap string value) :=
  and_then (getitem event "Timestamp") (λ timestamp,
  and_then (getitem event "ResourceStatus") (λ status,
  and_then (getitem event "ResourceType") (λ type,
  and_then (getitem event "LogicalResourceId") (λ logical_id,
    let details : gmap string value :=
      <["LogicalResourceId" := logical_id]>
        (<["ResourceType" := type]>
          (<["ResourceStatus" := status]>
            (<["TimeStamp" := timestamp]> ∅))) in
    if contains event "ResourceStatusReason" then
      and_then (getitem event "ResourceStatusReason") (λ status_reason,
        Ok (<["ResourceStatusReason" := status_reason]> details))
    else
      Ok (<["ResourceStatusReason" := Str EmptyString]> details))))).

(** The loop [for event in stack_events], appending to [events]. *)
Fixpoint normalize (stack_events events : list (gmap string value))
    : result (list (gmap string value)) :=
  match stack_events with
  | [] => Ok events
  | event :: rest =>
    and_then (event_details event) (λ details,
      normalize rest (events ++ [details]))
  end.

Definition get_cfnlogs (fuel : nat) (stackname region : string)
    : M (list (gmap string value)) :=
  exec LOG_info ("Collecting logs for " +:+ stackname +:+ DQUOTE +:+ LF) None ;;
  stack_events <- get_cfn_stack_events fuel stackname region ;;
  lift (normalize stack_events []).

(** *** [write_logs] *)

Definition CREATE_COMPLETE : value := Str "CREATE_COMPLETE".
Definition launch_successful : value := Str "Stack launch was successful".

(** The [reason] computed from the first event of a non-empty [cfnlogs]. *)
Definition outcome_reason (first : gmap string value) : result value :=
  and_then (getitem first "ResourceStatus") (λ status,
    if negb (eqb status CREATE_COMPLETE) then
      if contains first "ResourceStatusReason" then
        getitem first "ResourceStatusReason"
      else Ok (Str "Unknown")
    else Ok launch_successful).

(** The console message [msg]. *)
Definition console_message (stackname region logpath tested_on : string)
    (reason : value) : string :=
  ("StackName: " +:+ stackname +:+ " " +:+ LF)
  +:+ (TAB +:+ " |Region: " +:+ region +:+ LF)
  +:+ (TAB +:+ " |Logging to: " +:+ logpath +:+ LF)
  +:+ (TAB +:+ " |Tested on: " +:+ tested_on +:+ LF)
  +:+ ("-----------------------------------------------------------------"
       +:+ "-------------------------" +:+ LF)
  +:+ ("ResourceStatusReason: " +:+ LF)
  +:+ (textwrap_fill E (str reason) 85 +:+ LF)
  +:+ ("================================================================="
       +:+ "=========================" +:+ LF).

Definition dashes : string :=
  "------------------------------------------------------------------"
  +:+ "-----------".
Definition stars : string :=
  "******************************************************************"
  +:+ "***********".

(** [log_output.writelines(text)]: a string is iterated character by
    character, each written in turn. *)
Fixpoint file_writelines (path text : string) (w : World) : World :=
  match text with
  | EmptyString => w
  | String c rest =>
    file_writelines path rest (file_write path (String c EmptyString) w)
  end.

(** The body of [with open(logpath, "a") as log_output]. *)
Definition write_report (logpath region stackname : string) (reason : value)
    (cfnlogs : list (gmap string value)) : M unit :=
  exec act (open_append logpath) ;;
  exec act (file_write logpath (dashes +:+ LF)) ;;
  exec act (file_write logpath ("Region: " +:+ region +:+ LF)) ;;
  exec act (file_write logpath ("StackName: " +:+ stackname +:+ LF)) ;;
  exec act (file_write logpath (stars +:+ LF)) ;;
  exec act (file_write logpath ("ResourceStatusReason:  " +:+ LF)) ;;
  exec act (file_write logpath (textwrap_fill E (str reason) 85 +:+ LF)) ;;
  exec act (file_write logpath (stars +:+ LF)) ;;
  exec act (file_write logpath (stars +:+ LF)) ;;
  exec act (file_write logpath ("Events:  " +:+ LF)) ;;
  exec act (file_writelines logpath (tabulate E cfnlogs)) ;;
  exec act (file_write logpath
    (LF +:+ "****************************************************************"
     +:+ "*************" +:+ LF)) ;;
  exec act (file_write logpath (dashes +:+ LF)) ;;
  tested_on <- now (strftime E) ;;
  exec act (file_write logpath ("Tested on: " +:+ tested_on +:+ LF)) ;;
  act (file_write logpath (dashes +:+ LF +:+ LF)).

Definition nested_stack_type : string := "AWS::CloudFormation::Stack".

Definition no_events_message : string :=
  "No event logs found. Something went wrong at describe event call." +:+ LF.

Fixpoint write_logs (fuel : nat) (stack_id logpath : string) : M unit :=
  match fuel with
  | 0 => λ w, (OutOfFuel, w)
  | S fuel' =>
    let stackinfo := parse_stack_info E stack_id in
    let stackname := stack_name stackinfo in
    let region := region stackinfo in
    cfnlogs <- get_cfnlogs fuel' stackname region ;;
    match cfnlogs with
    | first :: _ =>
      reason <- lift (outcome_reason first) ;;
      tested_on <- now (strftime E) ;;
      let msg := console_message stackname region logpath tested_on reason in
      exec (if eqb reason launch_successful
            then LOG_info msg (Some PASS)
            else LOG_error msg) ;;
      exec LOG_warning "|GENERATING REPORTS" (Some NAMETAG) ;;
      exec write_report logpath region stackname reason cfnlogs ;;
      resources <- lift (get_resources E stackname region) ;;
      for_each (λ resource,
        if String.eqb (resourceType resource) nested_stack_type
        then write_logs fuel' (physicalId resource) logpath
        else ret tt) resources
    | [] => LOG_error no_events_message
    end
  end.

(** *** [createcfnlogs] *)

(** A stack of a test, of which only [stack["StackId"]] is read, and a
    [TestData] object, of which only [get_test_stacks()] is called. *)
Record TestStack : Type := mkTestStack { StackId : string }.
Record TestData : Type := mkTestData { get_test_stacks : list TestStack }.

(** ["{}/{}-{}-{}{}".format(logpath, stackname, region, "cfnlogs", extension)] *)
Definition test_logpath (logpath stackname region : string) : string :=
  let extension := ".txt" in
  logpath +:+ "/" +:+ stackname +:+ "-" +:+ region +:+ "-" +:+ "cfnlogs"
  +:+ extension.

Definition createcfnlogs (fuel : nat) (testdata_list : list TestData)
    (logpath : string) : M unit :=
  exec LOG_info "Collecting CloudFormation Logs" None ;;
  for_each (λ test,
    for_each (λ stack,
      let stackinfo := parse_stack_info E (StackId stack) in
      let stackname := stack_name stackinfo in
      let region := region stackinfo in
      write_logs fuel (StackId stack) (test_logpath logpath stackname region))
      (get_test_stacks test)) testdata_list.

End CfnLogTools.

(** ** Vocabulary of the properties *)

(** The world after the requests [rs] have been sent. *)
Definition sent_all (rs : list Request) (w : World) : World :=
  mkWorld (files w) (LOG w) (requests w ++ rs) (clock w).

(** The provider serves [stackname] in [pages] from [token] on: every page
    but the last carries the continuation token that fetches the next one.
    [final] is [None] when the last page carries no token, and [Some e] when
    the request that follows the last page of [pages] raises [e]. *)
Inductive paged (E : Env) (region stackname : string)
    : option string → list Response → option exn → Prop :=
  | paged_last token response :
      describe_stack_events E region stackname token = Ok response →
      NextToken response = None →
      paged E region stackname token [response] None
  | paged_fail token e :
      describe_stack_events E region stackname token = Err e →
      paged E region stackname token [] (Some e)
  | paged_next token response next rest final :
      describe_stack_events E region stackname token = Ok response →
      NextToken response = Some next →
      paged E region stackname (Some next) rest final →
      paged E region stackname token (response :: rest) final.

(** The tokens of the requests that fetch [pages] from [token] on, the
    failing request included. *)
Fixpoint token_trail (token : option string) (pages : list Response)
    (final : option exn) : list (option string) :=
  match pages with
  | [] => match final with Some _ => [token] | None => [] end
  | response :: rest => token :: token_trail (NextToken response) rest final
  end.

Definition events_of (pages : list Response) : list (gmap string value) :=
  concat (map StackEvents pages).

(** The keys [get_cfnlogs] reads from a raw event without testing for them. *)
Definition required_keys : list string :=
  ["Timestamp"; "ResourceStatus"; "ResourceType"; "LogicalResourceId"].

Definition has_required_keys (event : gmap string value) : bool :=
  forallb (contains event) required_keys.

(** How the status reason of a raw [event] shows in the normalized
    [details]: the key is there, with the empty text when the raw event has
    none, and with the raw value otherwise. *)
Definition reason_projected (event details : gmap string value) : Prop :=
  is_Some (details !! "ResourceStatusReason")
  ∧ (event !! "ResourceStatusReason" = None →
     details !! "ResourceStatusReason" = Some (Str EmptyString))
  ∧ (∀ v, event !! "ResourceStatusReason" = Some v →
     details !! "ResourceStatusReason" = Some v).

(** The text [write_report] appends to the file. *)
Definition report_block (E : Env) (region stackname : string) (reason : value)
    (cfnlogs : list (gmap string value)) (tested_on : string) : string :=
  (dashes +:+ LF)
  +:+ ("Region: " +:+ region +:+ LF)
  +:+ ("StackName: " +:+ stackname +:+ LF)
  +:+ (stars +:+ LF)
  +:+ ("ResourceStatusReason:  " +:+ LF)
  +:+ (textwrap_fill E (str E reason) 85 +:+ LF)
  +:+ (stars +:+ LF)
  +:+ (stars +:+ LF)
  +:+ ("Events:  " +:+ LF)
  +:+ tabulate E cfnlogs
  +:+ (LF +:+ stars +:+ LF)
  +:+ (dashes +:+ LF)
  +:+ ("Tested on: " +:+ tested_on +:+ LF)
  +:+ (dashes +:+ LF +:+ LF).

(** The world [write_logs] leaves when it has logged the console message and
    written the report: two readings of the clock, two log records, and
    [report_block] appended to the file. *)
Definition reported (E : Env) (stackname region logpath : string)
    (cfnlogs : list (gmap string value)) (reason : value) (w : World) : World :=
  let msg :=
    console_message E stackname region logpath (strftime E (clock w)) reason in
  mkWorld
    (<[logpath := content w logpath +:+
         report_block E region stackname reason cfnlogs
           (strftime E (S (clock w)))]> (files w))
    (LOG w ++ [if eqb reason launch_successful
               then mkLogRecord INFO msg (Some PASS)
               else mkLogRecord ERROR msg None;
               mkLogRecord WARNING "|GENERATING REPORTS" (Some NAMETAG)])
    (requests w)
    (S (S (clock w))).

(** The loop of [write_logs] over the resources of the stack. *)
Definition descend (E : Env) (fuel : nat) (logpath : string)
    (resources : list Resource) : M unit :=
  for_each (λ resource,
    if String.eqb (resourceType resource) nested_stack_type
    then write_logs E fuel (physicalId resource) logpath
    else ret tt) resources.

(** [w'] has the files of [w], each with text added at its end, and
    possibly new files. *)
Definition extends (w w' : World) : Prop :=
  ∀ path, ∃ added, content w' path = content w path +:+ added.

(** A computation that leaves every file with its text, or with text added
    at its end. *)
Definition appending {A} (m : M A) : Prop := ∀ w, extends w (m w).2.

(** A computation that touches no file and does not read the clock. *)
Definition silent {A} (m : M A) : Prop :=
  ∀ w, files (m w).2 = files w ∧ clock (m w).2 = clock w.

(** The loop [for x in xs: body(x)] runs to its end from [w] to [w']: the
    body is run once on each element, in order, each run returning and
    handing its world to the next. *)
Inductive visits {A} (body : A → M unit) : list A → World → World → Prop :=
  | visits_nil w : visits body [] w w
  | visits_cons x rest w w1 w' :
      body x w = (Ret tt, w1) →
      visits body rest w1 w' →
      visits body (x :: rest) w w'.

(** ** A provider for the examples

    A fixed set of stacks, in the manner of a test double: what the
    provider answers for each, and what the resource lister reports. *)
Module Fixture.

Definition event (status : string) (reason : option string)
    : gmap string value :=
  let fields : gmap string value :=
    {[ "Timestamp" := Datetime 1700000000;
       "ResourceStatus" := Str status;
       "ResourceType" := Str "AWS::CloudFormation::Stack";
       "LogicalResourceId" := Str "stack" ]} in
  match reason with
  | Some text => <["ResourceStatusReason" := Str text]> fields
  | None => fields
  end.

(** An event record that carries nothing but its timestamp. *)
Definition bare_event : gmap string value :=
  {[ "Timestamp" := Datetime 1700000000 ]}.

Definition one_page (events : list (gmap string value)) : result Response :=
  Ok (mkResponse events None).

Definition describe (region stackname : string) (token : option string)
    : result Response :=
  if String.eqb stackname "parent" then
    one_page [event "CREATE_COMPLETE" None]
  else if String.eqb stackname "family" then
    one_page [event "CREATE_COMPLETE" None]
  else if String.eqb stackname "child" then
    one_page [event "CREATE_FAILED" (Some "Resource X failed")]
  else if String.eqb stackname "pending" then
    one_page [event "CREATE_IN_PROGRESS" None]
  else if String.eqb stackname "empty" then
    one_page []
  else if String.eqb stackname "bare" then
    one_page [bare_event]
  else if String.eqb stackname "paged" then
    match token with
    | None =>
      Ok (mkResponse [event "DELETE_COMPLETE" None; event "DELETE_IN_PROGRESS" None]
            (Some "t1"))
    | Some token =>
      if String.eqb token "t1" then
        Ok (mkResponse [event "CREATE_COMPLETE" None] (Some "t2"))
      else if String.eqb token "t2" then
        Ok (mkResponse [event "CREATE_IN_PROGRESS" (Some "User Initiated")] None)
      else Err (ClientError "ValidationError")
    end
  else if String.eqb stackname "flaky" then
    match token with
    | None => Ok (mkResponse [event "ROLLBACK_COMPLETE" None] (Some "t1"))
    | Some _ => Err (ClientError "Throttling")
    end
  else if String.eqb stackname "offline" then
    Err (BotoCoreError "Could not connect to the endpoint URL")
  else Err (ClientError "Stack does not exist").

(** The identifier [arn:name] names the stack [name]. *)
Definition parse (stack_id : string) : StackInfo :=
  if String.prefix "arn:" stack_id then
    mkStackInfo (String.substring 4 (String.length stack_id - 4) stack_id)
                "us-east-1"
  else mkStackInfo stack_id "us-east-1".

Definition bucket : Resource := mkResource "AWS::S3::Bucket" "logs-bucket".
Definition nested (stack_id : string) : Resource :=
  mkResource "AWS::CloudFormation::Stack" stack_id.

Definition resources (stackname region : string) : result (list Resource) :=
  if String.eqb stackname "parent" then Ok [nested "arn:child"; bucket]
  else if String.eqb stackname "family" then
    Ok [nested "arn:child"; bucket; nested "arn:pending"]
  else Ok [].

Definition table (rows : list (gmap string value)) : string :=
  "rows: " +:+ pretty (length rows).

Definition env : Env :=
  mkEnv describe parse resources (λ text _, text) table
        (λ reading, "reading " +:+ pretty reading)
        (λ seconds, pretty seconds).

Definition w0 : World := mkWorld ∅ [] [] 0.

(** The normalized form of [event status reason]. *)
Definition normalized (status reason : string) : gmap string value :=
  {[ "TimeStamp" := Datetime 1700000000;
     "ResourceStatus" := Str status;
     "ResourceType" := Str "AWS::CloudFormation::Stack";
     "LogicalResourceId" := Str "stack";
     "ResourceStatusReason" := Str reason ]}.

(** The world after the events of [stackname], served in one page, have
    been collected from [w0]. *)
Definition collected (stackname : string) : World :=
  mkWorld ∅
    [mkLogRecord INFO ("Collecting logs for " +:+ stackname +:+ DQUOTE +:+ LF)
       None]
    [mkRequest "us-east-1" stackname None] 0.

Definition paged_pages : list Response :=
  [mkResponse [event "DELETE_COMPLETE" None; event "DELETE_IN_PROGRESS" None]
     (Some "t1");
   mkResponse [event "CREATE_COMPLETE" None] (Some "t2");
   mkResponse [event "CREATE_IN_PROGRESS" (Some "User Initiated")] None].

Definition flaky_pages : list Response :=
  [mkResponse [event "ROLLBACK_COMPLETE" None] (Some "t1")].

End Fixture.

(** ** Vocabulary of the further properties *)

(** The keys of a normalized event. *)
Definition normalized_keys : gset string :=
  {[ "TimeStamp"; "ResourceStatus"; "ResourceType"; "LogicalResourceId";
     "ResourceStatusReason" ]}.

(** How the other fields of a raw [event] show in the normalized [details]:
    the timestamp moves from the key [Timestamp] to the key [TimeStamp], the
    three others keep key and value. *)
Definition fields_projected (event details : gmap string value) : Prop :=
  details !! "TimeStamp" = event !! "Timestamp"
  ∧ details !! "Timestamp" = None
  ∧ details !! "ResourceStatus" = event !! "ResourceStatus"
  ∧ details !! "ResourceType" = event !! "ResourceType"
  ∧ details !! "LogicalResourceId" = event !! "LogicalResourceId".

(** The first of the keys [get_cfnlogs] indexes that [event] lacks, in the
    order in which the dictionary literal reads them. *)
Definition first_missing (event : gmap string value) : option string :=
  List.find (λ k, negb (contains event k)) required_keys.

(** A computation whose runs relate the world they start from to the world
    they leave, whatever way they end. *)
Definition keeps (R : relation World) {A} (m : M A) : Prop :=
  ∀ w, R w (m w).2.

(** Relations between worlds that hold across what every method does:
    logging, sending a request, reading the clock. *)
Class Observes (R : relation World) : Prop := {
  observes_preorder :: PreOrder R;
  observes_emit r w : R w (emit r w);
  observes_sent r w : R w (sent r w);
  observes_tick w : R w (tick w)
}.

(** Those that also hold across opening and writing the file [logpath]. *)
Class Appends (R : relation World) (logpath : string) : Prop := {
  appends_observes :: Observes R;
  appends_open w : R w (open_append logpath w);
  appends_write text w : R w (file_write logpath text w)
}.

(** The log and the requests of [w] begin those of [w'], and the clock has
    not gone back. *)
Definition grows (w w' : World) : Prop :=
  LOG w `prefix_of` LOG w'
  ∧ requests w `prefix_of` requests w'
  ∧ clock w ≤ clock w'.

(** Every file of [w] is a file of [w'], with the text it had and possibly
    more after it. *)
Definition preserves_files (w w' : World) : Prop :=
  ∀ path,
    (is_Some (files w !! path) → is_Some (files w' !! path))
    ∧ ∃ added, content w' path = content w path +:+ added.

(** The path [createcfnlogs] gives to the report of [stack]. *)
Definition path_of (E : Env) (logpath : string) (stack : TestStack) : string :=
  let stackinfo := parse_stack_info E (StackId stack) in
  test_logpath logpath (stack_name stackinfo) (region stackinfo).

(** [self._boto_client], of which only [get(service, region)] is called: it
    hands out the client of the region, the one whose answers [Env] holds,
    or raises. *)
Record BotoClient : Type := mkBotoClient {
  boto_get : string → string → result unit
}.

(** The method [get_cfn_stack_events] from its first line: the client is
    obtained, outside the [try], then the events are fetched through it. *)
Definition get_cfn_stack_events_with_client (B : BotoClient) (E : Env)
    (fuel : nat) (stackname region : string) : M (list (gmap string value)) :=
  exec lift (boto_get B "cloudformation" region) ;;
  get_cfn_stack_events E fuel stackname region.

(** The requests of one call of [get_cfn_stack_events]: the first without
    token, then one for each of [tokens]. *)
Definition requests_for (region stackname : string) (tokens : list string)
    : list Request :=
  mkRequest region stackname None
  :: map (λ token, mkRequest region stackname (Some token)) tokens.

Definition collecting (stackname : string) : LogRecord :=
  mkLogRecord INFO ("Collecting logs for " +:+ stackname +:+ DQUOTE +:+ LF) None.

(** ** More stacks for the examples

    The stacks of [Fixture], and beside them: a stack whose second page
    raises a connection error, one whose every page carries a token, one
    that lists itself among its resources, one whose resources cannot be
    listed, one with an event that lacks its type, one that failed with the
    text of a success as its reason, and one with three nested stacks of
    which the second cannot be reached. *)
Module Scenario.

Definition torn_event : gmap string value :=
  {[ "Timestamp" := Datetime 1700000000;
     "ResourceStatus" := Str "CREATE_FAILED";
     "LogicalResourceId" := Str "stack" ]}.

Definition describe (region stackname : string) (token : option string)
    : result Response :=
  if String.eqb stackname "cut" then
    match token with
    | None =>
      Ok (mkResponse [Fixture.event "UPDATE_COMPLETE" None] (Some "t1"))
    | Some _ => Err (BotoCoreError "Read timeout on endpoint URL")
    end
  else if String.eqb stackname "loop" then
    Ok (mkResponse [Fixture.event "CREATE_IN_PROGRESS" None] (Some "again"))
  else if String.eqb stackname "selfref" then
    Fixture.one_page [Fixture.event "CREATE_COMPLETE" None]
  else if String.eqb stackname "locked" then
    Fixture.one_page [Fixture.event "CREATE_COMPLETE" None]
  else if String.eqb stackname "house" then
    Fixture.one_page [Fixture.event "CREATE_COMPLETE" None]
  else if String.eqb stackname "torn" then
    Fixture.one_page [Fixture.event "CREATE_FAILED" None; torn_event]
  else if String.eqb stackname "quirk" then
    Fixture.one_page
      [Fixture.event "CREATE_FAILED" (Some "Stack launch was successful")]
  else Fixture.describe region stackname token.

Definition resources (stackname region : string) : result (list Resource) :=
  if String.eqb stackname "selfref" then
    Ok [Fixture.bucket; Fixture.nested "arn:selfref"]
  else if String.eqb stackname "locked" then
    Err (ClientError "AccessDenied")
  else if String.eqb stackname "house" then
    Ok [Fixture.nested "arn:child"; Fixture.nested "arn:offline";
        Fixture.nested "arn:pending"]
  else Fixture.resources stackname region.

Definition env : Env :=
  mkEnv describe Fixture.parse resources (λ text _, text) Fixture.table
        (λ reading, "reading " +:+ pretty reading)
        (λ seconds, pretty seconds).

End Scenario.

(** ** Runs, text and worlds *)

Lemma bind_Ret {A B} (m : M A) (k : A → M B) w a w' :
  m w = (Ret a, w') → bind m k w = k a w'.
Proof. unfold bind. by intros ->. Qed.

Lemma bind_bind {A B C} (m : M A) (f : A → M B) (g : B → M C) w :
  bind (bind m f) g w = bind m (λ a, bind (f a) g) w.
Proof. unfold bind. by destruct (m w) as [[a | e |] w1]. Qed.

Lemma bind_act {B} (f : World → World) (k : unit → M B) w :
  bind (act f) k w = k tt (f w).
Proof. done. Qed.

Lemma bind_now {B} (render : nat → string) (k : string → M B) w :
  bind (now render) k w = k (render (clock w)) (tick w).
Proof. done. Qed.

Lemma append_cons ch (a b : string) : String ch a +:+ b = String ch (a +:+ b).
Proof. reflexivity. Qed.

Lemma append_assoc (a b c : string) : (a +:+ b) +:+ c = a +:+ b +:+ c.
Proof. induction a as [|ch a IH]; [done |]. rewrite !append_cons. by f_equal. Qed.

Lemma append_empty_r (a : string) : a +:+ EmptyString = a.
Proof. induction a as [|ch a IH]; [done |]. rewrite append_cons. by f_equal. Qed.

Lemma sent_all_nil w : sent_all [] w = w.
Proof. destruct w; unfold sent_all; simpl. by rewrite app_nil_r. Qed.

Lemma sent_all_sent r rs w : sent_all rs (sent r w) = sent_all (r :: rs) w.
Proof. unfold sent_all, sent; simpl. by rewrite <- app_assoc. Qed.

(** ** The event fetcher *)

Section Fetcher.

Context (E : Env) (region stackname : string).

Lemma token_trail_length token pages final :
  length (token_trail token pages final) =
  length pages + (if final is Some _ then 1 else 0).
Proof.
  revert token; induction pages as [|response rest IH]; intros token; simpl.
  - by destruct final.
  - by rewrite IH.
Qed.

(** The loop, started on a response that carries a token, fetches the pages
    that follow and nothing more. *)
Lemma follow_tokens_paged token pages final :
  paged E region stackname token pages final →
  ∀ next fuel response stack_events w,
    token = Some next →
    NextToken response = Some next →
    length (token_trail token pages final) ≤ fuel →
    follow_tokens E fuel region stackname response stack_events w =
      (if final is Some e then Raise e else Ret tt,
       (stack_events ++ events_of pages,
        sent_all (map (mkRequest region stackname)
                      (token_trail token pages final)) w)).
Proof.
  induction 1 as [token page Hcall Hlast | token e Hcall
                 | token page next' rest final Hcall Hnext Hrest IH];
    intros next fuel response stack_events w -> Htoken Hfuel;
    (destruct fuel as [|fuel]; [simpl in Hfuel; lia |]);
    simpl; rewrite Htoken; unfold call_describe; rewrite Hcall.
  - destruct fuel; simpl; rewrite Hlast; unfold events_of; simpl;
      by rewrite app_nil_r.
  - unfold events_of; simpl. by rewrite app_nil_r.
  - rewrite (IH next' fuel page _ _ eq_refl Hnext).
    + rewrite Hnext, sent_all_sent. unfold events_of; simpl.
      by rewrite <- app_assoc.
    + simpl in Hfuel. rewrite Hnext in Hfuel. lia.
Qed.

(** The body of the [try] on a stack served in [pages]. *)
Lemma try_body_paged pages final fuel w :
  paged E region stackname None pages final →
  length pages ≤ fuel →
  try_body E fuel region stackname w =
    (if final is Some e then Raise e else Ret tt,
     (events_of pages,
      sent_all (map (mkRequest region stackname)
                    (token_trail None pages final)) w)).
Proof.
  intros Hpaged Hfuel. unfold try_body, call_describe.
  inversion Hpaged as [token page Hcall Hlast | token e Hcall
                      | token page next rest final' Hcall Hnext Hrest]; subst;
    rewrite Hcall; simpl.
  - destruct fuel; simpl; rewrite Hlast; unfold events_of; simpl;
      by rewrite app_nil_r.
  - done.
  - rewrite (follow_tokens_paged _ _ _ Hrest next fuel page _ _ eq_refl Hnext).
    + by rewrite Hnext, sent_all_sent.
    + rewrite token_trail_length. simpl in Hfuel.
      destruct final; lia.
Qed.

End Fetcher.

(** C2. When the provider serves the events of a stack in N pages, each but
    the last carrying a continuation token, [get_cfn_stack_events] returns
    the events of the N pages concatenated in order; it sends exactly N
    requests, the first without a token and each next one with the token of
    the page before, and none after the page that carries no token. *)
Theorem get_cfn_stack_events_pages (E : Env) (fuel : nat)
    (stackname region : string) (pages : list Response) (w : World) :
  paged E region stackname None pages None →
  length pages ≤ fuel →
  get_cfn_stack_events E fuel stackname region w =
    (Ret (concat (map StackEvents pages)),
     sent_all (map (mkRequest region stackname) (token_trail None pages None)) w)
  ∧ length (token_trail None pages None) = length pages
  ∧ token_trail None pages None =
      take (length pages) (None :: map NextToken pages).
Proof.
  intros Hpaged Hfuel. split; [| split].
  - unfold get_cfn_stack_events.
    by rewrite (try_body_paged E region stackname pages None fuel w).
  - rewrite token_trail_length. lia.
  - clear. generalize (@None string) as token.
    induction pages as [|page rest IH]; intros token; simpl; [done |].
    by rewrite IH.
Qed.

(** X19. When a request to the provider raises [ClientError], on the
    first page or on a later one, [get_cfn_stack_events] does not raise: it
    logs one record at error severity that names the stack, the region and
    the error, and returns the events of the pages fetched before, none when
    the first request failed. *)
Theorem get_cfn_stack_events_client_error (E : Env) (fuel : nat)
    (stackname region : string) (pages : list Response) (e : exn) (w : World) :
  paged E region stackname None pages (Some e) →
  is_ClientError e = true →
  length pages ≤ fuel →
  get_cfn_stack_events E fuel stackname region w =
    (Ret (concat (map StackEvents pages)),
     emit (mkLogRecord ERROR (fetch_error_message stackname region e) None)
       (sent_all (map (mkRequest region stackname)
                      (token_trail None pages (Some e))) w)).
Proof.
  intros Hpaged Hclient Hfuel. unfold get_cfn_stack_events.
  rewrite (try_body_paged E region stackname pages (Some e) fuel w) by done.
  by rewrite Hclient.
Qed.

(** An exception of another class leaves [get_cfn_stack_events] as it
    came, and the events fetched so far are lost with it. *)
Lemma get_cfn_stack_events_other_error (E : Env) fuel stackname region pages e w :
  paged E region stackname None pages (Some e) →
  is_ClientError e = false →
  length pages ≤ fuel →
  get_cfn_stack_events E fuel stackname region w =
    (Raise e,
     sent_all (map (mkRequest region stackname)
                   (token_trail None pages (Some e))) w).
Proof.
  intros Hpaged Hother Hfuel. unfold get_cfn_stack_events.
  rewrite (try_body_paged E region stackname pages (Some e) fuel w) by done.
  by rewrite Hother.
Qed.

(** ** The normalizer *)

Lemma getitem_Ok (d : gmap string value) k v :
  getitem d k = Ok v ↔ d !! k = Some v.
Proof. unfold getitem. destruct (d !! k); split; congruence. Qed.

Lemma contains_true (d : gmap string value) k :
  contains d k = true ↔ is_Some (d !! k).
Proof. unfold contains. by rewrite bool_decide_eq_true. Qed.

Lemma contains_false (d : gmap string value) k :
  contains d k = false ↔ d !! k = None.
Proof.
  unfold contains. rewrite bool_decide_eq_false. symmetry.
  apply eq_None_not_Some.
Qed.

Lemma and_then_Ok {A B} (r : result A) (k : A → result B) b :
  and_then r k = Ok b ↔ ∃ a, r = Ok a ∧ k a = Ok b.
Proof.
  destruct r as [a | e]; simpl; split.
  - eauto.
  - by intros (a' & [= <-] & ?).
  - done.
  - by intros (? & ? & ?).
Qed.

(** What [event_details] returns, field by field. *)
Lemma event_details_Ok (event details : gmap string value) :
  event_details event = Ok details ↔
  ∃ timestamp status type logical_id,
    event !! "Timestamp" = Some timestamp
    ∧ event !! "ResourceStatus" = Some status
    ∧ event !! "ResourceType" = Some type
    ∧ event !! "LogicalResourceId" = Some logical_id
    ∧ details =
        <["ResourceStatusReason" :=
            default (Str EmptyString) (event !! "ResourceStatusReason")]>
          (<["LogicalResourceId" := logical_id]>
            (<["ResourceType" := type]>
              (<["ResourceStatus" := status]>
                (<["TimeStamp" := timestamp]> ∅)))).
Proof.
  unfold event_details. split.
  - intros H.
    apply and_then_Ok in H as (timestamp & Ht%getitem_Ok & H).
    apply and_then_Ok in H as (status & Hs%getitem_Ok & H).
    apply and_then_Ok in H as (type & Hy%getitem_Ok & H).
    apply and_then_Ok in H as (logical_id & Hl%getitem_Ok & H).
    exists timestamp, status, type, logical_id. repeat split; try done.
    destruct (contains event "ResourceStatusReason") eqn:Hin.
    + apply and_then_Ok in H as (v & Hv%getitem_Ok & [= <-]).
      by rewrite Hv.
    + apply contains_false in Hin. rewrite Hin. by injection H as <-.
  - intros (timestamp & status & type & logical_id & Ht & Hs & Hy & Hl & ->).
    apply getitem_Ok in Ht, Hs, Hy, Hl. rewrite Ht, Hs, Hy, Hl. simpl.
    destruct (contains event "ResourceStatusReason") eqn:Hin.
    + apply contains_true in Hin as [v Hv]. rewrite Hv.
      apply getitem_Ok in Hv. by rewrite Hv.
    + apply contains_false in Hin. by rewrite Hin.
Qed.

Lemma event_details_reason (event details : gmap string value) :
  event_details event = Ok details →
  details !! "ResourceStatusReason" =
    Some (default (Str EmptyString) (event !! "ResourceStatusReason")).
Proof.
  intros (? & ? & ? & ? & _ & _ & _ & _ & ->)%event_details_Ok.
  by rewrite lookup_insert_eq.
Qed.

Lemma event_details_status (event details : gmap string value) :
  event_details event = Ok details →
  details !! "ResourceStatus" = event !! "ResourceStatus"
  ∧ is_Some (details !! "ResourceStatus").
Proof.
  intros (? & status & ? & ? & _ & -> & _ & _ & ->)%event_details_Ok.
  by rewrite !lookup_insert_ne, lookup_insert_eq by done.
Qed.

Lemma event_details_projected (event details : gmap string value) :
  event_details event = Ok details → reason_projected event details.
Proof.
  intros H%event_details_reason. unfold reason_projected. rewrite H.
  split; [by eexists |]. split.
  - by intros ->.
  - by intros v ->.
Qed.

Lemma has_required_keys_spec (event : gmap string value) :
  has_required_keys event = true ↔
  Forall (λ k, is_Some (event !! k)) required_keys.
Proof.
  unfold has_required_keys. rewrite forallb_forall, Forall_forall.
  split; intros H k Hk; apply contains_true, H;
    by apply list_elem_of_In.
Qed.

Lemma event_details_total (event : gmap string value) :
  has_required_keys event = true → ∃ details, event_details event = Ok details.
Proof.
  intros H%has_required_keys_spec. unfold required_keys in H.
  apply Forall_cons in H as [[timestamp Ht] H].
  apply Forall_cons in H as [[status Hs] H].
  apply Forall_cons in H as [[type Hy] H].
  apply Forall_cons in H as [[logical_id Hl] _].
  eexists. apply event_details_Ok.
  by exists timestamp, status, type, logical_id.
Qed.

Lemma event_details_missing (event : gmap string value) :
  has_required_keys event = false →
  ∃ k, k ∈ required_keys ∧ event_details event = Err (KeyError k).
Proof.
  unfold has_required_keys, required_keys, event_details; simpl.
  intros H. unfold getitem.
  destruct (event !! "Timestamp") eqn:Ht;
    [| exists "Timestamp"; split; [set_solver | done]].
  destruct (event !! "ResourceStatus") eqn:Hs;
    [| exists "ResourceStatus"; split; [set_solver | done]].
  destruct (event !! "ResourceType") eqn:Hy;
    [| exists "ResourceType"; split; [set_solver | done]].
  destruct (event !! "LogicalResourceId") eqn:Hl;
    [| exists "LogicalResourceId"; split; [set_solver | done]].
  exfalso. unfold contains in H.
  rewrite Ht, Hs, Hy, Hl in H.
  rewrite !bool_decide_eq_true_2 in H by by eexists. done.
Qed.

(** The loop over the raw events: one normalized event per raw event, in
    order, after those already in [events]. *)
Lemma normalize_Ok (stack_events events out : list (gmap string value)) :
  normalize stack_events events = Ok out ↔
  ∃ normalized,
    out = events ++ normalized
    ∧ Forall2 (λ event details, event_details event = Ok details)
              stack_events normalized.
Proof.
  revert events out.
  induction stack_events as [|event rest IH]; intros events out; simpl.
  - split.
    + intros [= <-]. exists []. by rewrite app_nil_r.
    + intros (normalized & -> & ->%Forall2_nil_inv_l). by rewrite app_nil_r.
  - rewrite and_then_Ok. split.
    + intros (details & Hd & (normalized & -> & Hrest)%IH).
      exists (details :: normalized). rewrite <- app_assoc. split; [done |].
      by constructor.
    + intros (normalized & -> & Hall).
      apply Forall2_cons_inv_l in Hall as (details & tail & Hd & Hrest & ->).
      exists details. split; [done |]. apply IH. exists tail.
      by rewrite <- app_assoc.
Qed.

(** [get_cfnlogs] returns what [normalize] makes of the fetched events. *)
Lemma get_cfnlogs_Ret (E : Env) fuel stackname region w events w' :
  get_cfnlogs E fuel stackname region w = (Ret events, w') →
  ∃ stack_events,
    get_cfn_stack_events E fuel stackname region
      (emit (mkLogRecord INFO
               ("Collecting logs for " +:+ stackname +:+ DQUOTE +:+ LF) None) w)
      = (Ret stack_events, w')
    ∧ normalize stack_events [] = Ok events.
Proof.
  unfold get_cfnlogs, bind, LOG_info, act.
  destruct (get_cfn_stack_events _ _ _ _ _) as [[stack_events | e |] w1];
    [| done | done].
  unfold lift.
  destruct (normalize stack_events []) as [out | e] eqn:Hnorm; [| done].
  intros [= <- <-]. by exists stack_events.
Qed.

(** Raw events that all carry the required keys are all normalized. *)
Lemma normalize_complete (stack_events : list (gmap string value)) :
  Forall (λ event, has_required_keys event = true) stack_events →
  ∃ events,
    normalize stack_events [] = Ok events
    ∧ Forall2 (λ event details, event_details event = Ok details)
              stack_events events.
Proof.
  intros Hall.
  assert (∃ events, Forall2 (λ event details, event_details event = Ok details)
                            stack_events events) as [events Hevents].
  { induction Hall as [|event rest Hevent _ [events IH]]; [by exists [] |].
    apply event_details_total in Hevent as [details Hd].
    exists (details :: events). by constructor. }
  exists events. split; [| done]. apply normalize_Ok. by exists events.
Qed.

(** A raw event without one of them stops the loop with [KeyError]. *)
Lemma normalize_missing (stack_events events : list (gmap string value)) :
  Exists (λ event, has_required_keys event = false) stack_events →
  ∃ k, k ∈ required_keys ∧ normalize stack_events events = Err (KeyError k).
Proof.
  revert events. induction stack_events as [|event rest IH]; intros events Hex.
  - by apply Exists_nil in Hex.
  - simpl. destruct (has_required_keys event) eqn:Hkeys.
    + destruct (event_details_total _ Hkeys) as [details ->]. simpl.
      apply IH. apply Exists_cons in Hex as [Hevent | Hrest]; [| done].
      congruence.
    + apply event_details_missing in Hkeys as (k & Hk & ->). by exists k.
Qed.

(** C6. [get_cfnlogs] turns the raw event at each position into the
    normalized event at that position, which carries the key
    [ResourceStatusReason]: with the empty text when the raw event has no
    status reason, and with the raw value, unchanged, when it has one. This
    holds of every list [get_cfnlogs] returns, and it returns one whenever
    the raw events carry the keys it reads. *)
Theorem get_cfnlogs_status_reason (E : Env) (fuel : nat)
    (stackname region : string) (w w' : World)
    (stack_events : list (gmap string value)) :
  get_cfn_stack_events E fuel stackname region
    (emit (mkLogRecord INFO
             ("Collecting logs for " +:+ stackname +:+ DQUOTE +:+ LF) None) w)
    = (Ret stack_events, w') →
  (∀ events w'',
     get_cfnlogs E fuel stackname region w = (Ret events, w'') →
     Forall2 reason_projected stack_events events)
  ∧ (Forall (λ event, has_required_keys event = true) stack_events →
     ∃ events,
       get_cfnlogs E fuel stackname region w = (Ret events, w')
       ∧ Forall2 reason_projected stack_events events).
Proof.
  intros Hfetch. split.
  - intros events w'' (raw & Hfetch' & Hnorm)%get_cfnlogs_Ret.
    rewrite Hfetch in Hfetch'. injection Hfetch' as <- _.
    apply normalize_Ok in Hnorm as (normalized & -> & Hall). simpl.
    eapply Forall2_impl; [exact Hall |]. apply event_details_projected.
  - intros (events & Hnorm & Hall)%normalize_complete.
    exists events. split.
    + unfold get_cfnlogs, LOG_info. rewrite bind_act.
      rewrite (bind_Ret _ _ _ _ _ Hfetch). by rewrite Hnorm.
    + eapply Forall2_impl; [exact Hall |]. apply event_details_projected.
Qed.

(** C10, amended. On raw events that all carry the keys [Timestamp],
    [ResourceStatus], [ResourceType] and [LogicalResourceId], the
    normalization step of [get_cfnlogs] does not raise and returns as many
    normalized events as it was given raw events; it leaves the world as it
    is. *)
Theorem normalize_total (stack_events : list (gmap string value)) :
  Forall (λ event, has_required_keys event = true) stack_events →
  ∃ events,
    normalize stack_events [] = Ok events
    ∧ length events = length stack_events
    ∧ ∀ w, lift (normalize stack_events []) w = (Ret events, w).
Proof.
  intros (events & Hnorm & Hall)%normalize_complete.
  exists events. split; [done |]. split.
  - symmetry. by eapply Forall2_length.
  - intros w. by rewrite Hnorm.
Qed.

(** ** Writing to the file *)

Lemma content_file_write path text w :
  content (file_write path text w) path = content w path +:+ text.
Proof. unfold content at 1, file_write; simpl. by rewrite lookup_insert_eq. Qed.

Lemma file_write_open path text w :
  file_write path text (open_append path w) = file_write path text w.
Proof.
  unfold file_write, open_append, content; simpl.
  by rewrite lookup_insert_eq, insert_insert_eq.
Qed.

Lemma file_write_write path first second w :
  file_write path second (file_write path first w) =
  file_write path (first +:+ second) w.
Proof.
  unfold file_write at 1. rewrite content_file_write.
  unfold file_write; simpl. by rewrite insert_insert_eq, append_assoc.
Qed.

Lemma file_write_tick path text w :
  file_write path text (tick w) = tick (file_write path text w).
Proof. done. Qed.

(** Written one character at a time, [text] ends up in the file whole. *)
Lemma file_writelines_write path text before w :
  file_writelines path text (file_write path before w) =
  file_write path (before +:+ text) w.
Proof.
  revert before; induction text as [|ch text IH]; intros before; simpl.
  - by rewrite append_empty_r.
  - rewrite file_write_write, IH, append_assoc. done.
Qed.

Section Report.

Context (E : Env).

Lemma write_report_run logpath region stackname reason cfnlogs w :
  write_report E logpath region stackname reason cfnlogs w =
    (Ret tt,
     tick (file_write logpath
             (report_block E region stackname reason cfnlogs
                (strftime E (clock w))) w)).
Proof.
  unfold write_report, bind, act, now; simpl.
  rewrite file_write_open, file_write_write.
  rewrite !file_write_write, file_writelines_write, !file_write_write.
  rewrite file_write_tick, !file_write_write.
  unfold report_block. rewrite !append_assoc. done.
Qed.

Lemma reported_eq stackname region logpath cfnlogs reason w :
  reported E stackname region logpath cfnlogs reason w =
  tick (file_write logpath
          (report_block E region stackname reason cfnlogs
             (strftime E (S (clock w))))
          (emit (mkLogRecord WARNING "|GENERATING REPORTS" (Some NAMETAG))
             (emit (if eqb reason launch_successful
                    then mkLogRecord INFO
                           (console_message E stackname region logpath
                              (strftime E (clock w)) reason) (Some PASS)
                    else mkLogRecord ERROR
                           (console_message E stackname region logpath
                              (strftime E (clock w)) reason) None)
                (tick w)))).
Proof.
  unfold reported, tick, file_write, emit, content; cbn [files LOG requests clock].
  by rewrite <- app_assoc.
Qed.

End Report.

(** ** The report writer *)

Section Writer.

Context (E : Env).

Lemma write_logs_S fuel stack_id logpath :
  write_logs E (S fuel) stack_id logpath =
    let stackinfo := parse_stack_info E stack_id in
    let stackname := stack_name stackinfo in
    let region := region stackinfo in
    (cfnlogs <- get_cfnlogs E fuel stackname region ;;
     match cfnlogs with
     | first :: _ =>
       reason <- lift (outcome_reason first) ;;
       tested_on <- now (strftime E) ;;
       let msg := console_message E stackname region logpath tested_on reason in
       exec (if eqb reason launch_successful
             then LOG_info msg (Some PASS)
             else LOG_error msg) ;;
       exec LOG_warning "|GENERATING REPORTS" (Some NAMETAG) ;;
       exec write_report E logpath region stackname reason cfnlogs ;;
       resources <- lift (get_resources E stackname region) ;;
       descend E fuel logpath resources
     | [] => LOG_error no_events_message
     end).
Proof. reflexivity. Qed.

(** [write_logs] on a stack without events. *)
Lemma write_logs_empty fuel stack_id logpath w w1 :
  get_cfnlogs E fuel (stack_name (parse_stack_info E stack_id))
              (region (parse_stack_info E stack_id)) w = (Ret [], w1) →
  write_logs E (S fuel) stack_id logpath w =
    (Ret tt, emit (mkLogRecord ERROR no_events_message None) w1).
Proof.
  intros Hlogs. rewrite write_logs_S. cbv zeta.
  by rewrite (bind_Ret _ _ _ _ _ Hlogs).
Qed.

(** [write_logs] on a stack with events: the message and the report, then
    the resources. *)
Lemma write_logs_nonempty fuel stack_id logpath w first rest w1 reason :
  let stackname := stack_name (parse_stack_info E stack_id) in
  let region := region (parse_stack_info E stack_id) in
  get_cfnlogs E fuel stackname region w = (Ret (first :: rest), w1) →
  outcome_reason first = Ok reason →
  write_logs E (S fuel) stack_id logpath w =
    (resources <- lift (get_resources E stackname region) ;;
     descend E fuel logpath resources)
      (reported E stackname region logpath (first :: rest) reason w1).
Proof.
  intros stackname region Hlogs Hreason. rewrite write_logs_S. cbv zeta.
  fold stackname region. rewrite (bind_Ret _ _ _ _ _ Hlogs).
  rewrite Hreason. unfold lift at 1.
  rewrite (bind_Ret (ret reason) _ w1 reason w1 eq_refl).
  rewrite bind_now, reported_eq.
  destruct (eqb reason launch_successful).
  - unfold LOG_info, LOG_warning. rewrite !bind_act.
    by rewrite (bind_Ret _ _ _ _ _ (write_report_run E _ _ _ _ _ _)).
  - unfold LOG_error, LOG_warning. rewrite !bind_act.
    by rewrite (bind_Ret _ _ _ _ _ (write_report_run E _ _ _ _ _ _)).
Qed.

End Writer.

(** ** The outcome reason *)

Lemma outcome_reason_complete (first : gmap string value) :
  first !! "ResourceStatus" = Some CREATE_COMPLETE →
  outcome_reason first = Ok launch_successful.
Proof.
  intros Hs%getitem_Ok. unfold outcome_reason. rewrite Hs. cbn [and_then].
  unfold eqb. by rewrite bool_decide_eq_true_2.
Qed.

Lemma outcome_reason_other (first : gmap string value) status :
  first !! "ResourceStatus" = Some status →
  status ≠ CREATE_COMPLETE →
  outcome_reason first =
    Ok (default (Str "Unknown") (first !! "ResourceStatusReason")).
Proof.
  intros Hs%getitem_Ok Hne. unfold outcome_reason. rewrite Hs. cbn [and_then].
  unfold eqb. rewrite bool_decide_eq_false_2 by done. cbn [negb].
  destruct (contains first "ResourceStatusReason") eqn:Hin.
  - apply contains_true in Hin as [v Hv]. rewrite Hv.
    by apply getitem_Ok.
  - apply contains_false in Hin. by rewrite Hin.
Qed.

(** The first event of a list that [get_cfnlogs] returns has a status, so
    the computation of the reason does not raise. *)
Lemma get_cfnlogs_reason (E : Env) fuel stackname region w w' first rest :
  get_cfnlogs E fuel stackname region w = (Ret (first :: rest), w') →
  ∃ reason, outcome_reason first = Ok reason.
Proof.
  intros (stack_events & _ & Hnorm)%get_cfnlogs_Ret.
  apply normalize_Ok in Hnorm as (normalized & Heq & Hall). simpl in Heq.
  subst normalized.
  apply Forall2_cons_inv_r in Hall as (raw & raws & Hfirst & _ & _).
  destruct (event_details_status _ _ Hfirst) as [_ [status Hstatus]].
  destruct (decide (status = CREATE_COMPLETE)) as [-> | Hne].
  - eexists. by apply outcome_reason_complete.
  - eexists. by eapply outcome_reason_other.
Qed.

(** C1. In [write_logs], on a non-empty list of normalized events, the
    outcome reason is exactly "Stack launch was successful" when the
    [ResourceStatus] of the first event is exactly "CREATE_COMPLETE"; for any
    other status it is the [ResourceStatusReason] of that event, or
    "Unknown" when the event has none. This reason is the one of the
    console message and of the report. *)
Theorem write_logs_outcome_reason (E : Env) (first : gmap string value)
    (status : value) :
  first !! "ResourceStatus" = Some status →
  (status = Str "CREATE_COMPLETE" →
   outcome_reason first = Ok (Str "Stack launch was successful"))
  ∧ (status ≠ Str "CREATE_COMPLETE" →
     ∀ v, first !! "ResourceStatusReason" = Some v → outcome_reason first = Ok v)
  ∧ (status ≠ Str "CREATE_COMPLETE" →
     first !! "ResourceStatusReason" = None →
     outcome_reason first = Ok (Str "Unknown"))
  ∧ ∀ fuel stack_id logpath rest w w1,
      let stackname := stack_name (parse_stack_info E stack_id) in
      let region := region (parse_stack_info E stack_id) in
      get_cfnlogs E fuel stackname region w = (Ret (first :: rest), w1) →
      ∃ reason,
        outcome_reason first = Ok reason
        ∧ write_logs E (S fuel) stack_id logpath w =
            (resources <- lift (get_resources E stackname region) ;;
             descend E fuel logpath resources)
              (reported E stackname region logpath (first :: rest) reason w1).
Proof.
  intros Hstatus. split; [| split; [| split]].
  - intros ->. by apply outcome_reason_complete.
  - intros Hne v Hv. rewrite (outcome_reason_other first status) by done.
    by rewrite Hv.
  - intros Hne Hnone. rewrite (outcome_reason_other first status) by done.
    by rewrite Hnone.
  - intros fuel stack_id logpath rest w w1 stackname region Hlogs.
    assert (∃ reason, outcome_reason first = Ok reason) as [reason Hreason].
    { destruct (decide (status = CREATE_COMPLETE)) as [-> | Hne].
      - eexists. by apply outcome_reason_complete.
      - eexists. by eapply outcome_reason_other. }
    exists reason. split; [done |].
    by apply write_logs_nonempty.
Qed.

(** C8. Every normalized event that [get_cfnlogs] returns has the key
    [ResourceStatusReason], so the membership test of [write_logs] on the
    first event succeeds and the reason is never set to "Unknown" for want
    of the key: when the status of the first event is not
    "CREATE_COMPLETE", the outcome reason is the value under that key, and
    it is the empty text when the raw event carried no status reason. *)
Theorem get_cfnlogs_reason_key (E : Env) (fuel : nat)
    (stackname region : string) (w w' : World)
    (first : gmap string value) (rest : list (gmap string value)) :
  get_cfnlogs E fuel stackname region w = (Ret (first :: rest), w') →
  contains first "ResourceStatusReason" = true
  ∧ (∃ v, first !! "ResourceStatusReason" = Some v
          ∧ (first !! "ResourceStatus" ≠ Some (Str "CREATE_COMPLETE") →
             outcome_reason first = Ok v))
  ∧ ∃ raw raws,
      get_cfn_stack_events E fuel stackname region
        (emit (mkLogRecord INFO
                 ("Collecting logs for " +:+ stackname +:+ DQUOTE +:+ LF)
                 None) w)
        = (Ret (raw :: raws), w')
      ∧ (raw !! "ResourceStatusReason" = None →
         first !! "ResourceStatus" ≠ Some (Str "CREATE_COMPLETE") →
         outcome_reason first = Ok (Str EmptyString)
         ∧ outcome_reason first ≠ Ok (Str "Unknown")).
Proof.
  intros (stack_events & Hfetch & Hnorm)%get_cfnlogs_Ret.
  apply normalize_Ok in Hnorm as (normalized & Heq & Hall). simpl in Heq.
  subst normalized.
  apply Forall2_cons_inv_r in Hall as (raw & raws & Hfirst & _ & ->).
  pose proof (event_details_reason _ _ Hfirst) as Hreason.
  destruct (event_details_status _ _ Hfirst) as [_ [status Hstatus]].
  assert (first !! "ResourceStatus" ≠ Some (Str "CREATE_COMPLETE") →
          outcome_reason first =
            Ok (default (Str EmptyString) (raw !! "ResourceStatusReason")))
    as Hother.
  { intros Hne. rewrite (outcome_reason_other first status); [| done |].
    - by rewrite Hreason.
    - intros ->. by apply Hne. }
  split; [| split].
  - apply contains_true. rewrite Hreason. by eexists.
  - eexists. split; [exact Hreason | exact Hother].
  - exists raw, raws. split; [done |]. intros Hnone Hne.
    rewrite (Hother Hne), Hnone. by split.
Qed.

(** ** What a run leaves untouched *)

Create HintDb frame discriminated.

Lemma silent_ret {A} (a : A) : silent (ret a).
Proof. by intros w. Qed.

Lemma silent_raise {A} (e : exn) : silent (@raise A e).
Proof. by intros w. Qed.

Lemma silent_lift {A} (r : result A) : silent (lift r).
Proof. destruct r; [apply silent_ret | apply silent_raise]. Qed.

Lemma silent_emit (r : LogRecord) : silent (act (emit r)).
Proof. by intros w. Qed.

Lemma silent_LOG_info msg extra : silent (LOG_info msg extra).
Proof. apply silent_emit. Qed.

Lemma silent_LOG_warning msg extra : silent (LOG_warning msg extra).
Proof. apply silent_emit. Qed.

Lemma silent_LOG_error msg : silent (LOG_error msg).
Proof. apply silent_emit. Qed.

#[local] Hint Resolve silent_ret silent_raise silent_lift silent_emit
  silent_LOG_info silent_LOG_warning silent_LOG_error : frame.

Lemma silent_bind {A B} (m : M A) (k : A → M B) :
  silent m → (∀ a, silent (k a)) → silent (bind m k).
Proof.
  intros Hm Hk w. unfold bind. specialize (Hm w).
  destruct (m w) as [[a | e |] w1]; simpl in *; [| done | done].
  destruct (Hk a w1) as [Hfiles Hclock]. destruct Hm as [<- <-]. done.
Qed.

Lemma follow_tokens_silent (E : Env) fuel region stackname :
  ∀ response stack_events w,
    let w' := (follow_tokens E fuel region stackname response stack_events w).2.2 in
    files w' = files w ∧ clock w' = clock w.
Proof.
  induction fuel as [|fuel IH]; intros response stack_events w; simpl;
    destruct (NextToken response) as [token |]; try done.
  unfold call_describe.
  destruct (describe_stack_events E region stackname (Some token))
    as [response' | e]; [| done].
  apply (IH response' _ (sent _ w)).
Qed.

Lemma get_cfn_stack_events_silent (E : Env) fuel stackname region :
  silent (get_cfn_stack_events E fuel stackname region).
Proof.
  intros w. unfold get_cfn_stack_events, try_body, call_describe.
  destruct (describe_stack_events E region stackname None) as [response | e].
  - pose proof (follow_tokens_silent E fuel region stackname response
                  ([] ++ StackEvents response)
                  (sent (mkRequest region stackname None) w)) as Hloop.
    destruct (follow_tokens _ _ _ _ _ _ _) as [[[] | e |] [events w1]];
      simpl in *; try done.
    by destruct (is_ClientError e).
  - by destruct (is_ClientError e).
Qed.

Lemma get_cfnlogs_silent (E : Env) fuel stackname region :
  silent (get_cfnlogs E fuel stackname region).
Proof.
  unfold get_cfnlogs. apply silent_bind; [by auto with frame |]. intros _.
  apply silent_bind; [apply get_cfn_stack_events_silent |]. intros events.
  by auto with frame.
Qed.

#[local] Hint Resolve get_cfnlogs_silent : frame.

(** ** What a run appends *)

Lemma extends_refl w : extends w w.
Proof. intros path. exists EmptyString. by rewrite append_empty_r. Qed.

Lemma extends_trans w1 w2 w3 : extends w1 w2 → extends w2 w3 → extends w1 w3.
Proof.
  intros H12 H23 path. destruct (H12 path) as [a Ha], (H23 path) as [b Hb].
  exists (a +:+ b). by rewrite Hb, Ha, append_assoc.
Qed.

Lemma extends_same_files w w' : files w' = files w → extends w w'.
Proof.
  intros Hfiles path. exists EmptyString. unfold content.
  by rewrite Hfiles, append_empty_r.
Qed.

Lemma content_file_write_ne path other text w :
  other ≠ path → content (file_write path text w) other = content w other.
Proof.
  intros Hne. unfold content, file_write; simpl. by rewrite lookup_insert_ne.
Qed.

Lemma extends_file_write path text w : extends w (file_write path text w).
Proof.
  intros other. destruct (decide (other = path)) as [-> | Hne].
  - exists text. apply content_file_write.
  - exists EmptyString. by rewrite content_file_write_ne, append_empty_r.
Qed.

Lemma appending_silent {A} (m : M A) : silent m → appending m.
Proof. intros Hm w. apply extends_same_files, Hm. Qed.

Lemma appending_bind {A B} (m : M A) (k : A → M B) :
  appending m → (∀ a, appending (k a)) → appending (bind m k).
Proof.
  intros Hm Hk w. unfold bind. specialize (Hm w).
  destruct (m w) as [[a | e |] w1]; simpl in *; [| done | done].
  eapply extends_trans; [exact Hm | apply Hk].
Qed.

#[local] Hint Resolve appending_silent : frame.

Lemma appending_for_each {A} (body : A → M unit) (xs : list A) :
  (∀ x, appending (body x)) → appending (for_each body xs).
Proof.
  intros Hbody. induction xs as [|x rest IH]; simpl.
  - auto with frame.
  - apply appending_bind; [apply Hbody | by intros _].
Qed.

Lemma appending_write_report (E : Env) logpath region stackname reason cfnlogs :
  appending (write_report E logpath region stackname reason cfnlogs).
Proof.
  intros w. rewrite write_report_run. simpl.
  eapply extends_trans; [apply (extends_file_write logpath) |].
  by apply extends_same_files.
Qed.

Lemma appending_now (render : nat → string) : appending (now render).
Proof. intros w. by apply extends_same_files. Qed.

#[local] Hint Resolve appending_write_report appending_now : frame.

(** One statement of [write_logs] followed by the rest. *)
Tactic Notation "appending_then" "as" simple_intropattern(x) :=
  apply appending_bind; [by auto with frame | intros x].

(** Whatever way it ends, [write_logs] only adds text at the end of files. *)
Lemma appending_write_logs (E : Env) fuel :
  ∀ stack_id logpath, appending (write_logs E fuel stack_id logpath).
Proof.
  induction fuel as [|fuel IH]; intros stack_id logpath.
  - intros w. apply extends_refl.
  - rewrite write_logs_S. cbv zeta.
    appending_then as [|first rest]; [auto with frame |].
    appending_then as reason. appending_then as tested_on.
    apply appending_bind.
    { destruct (eqb _ launch_successful); auto with frame. }
    intros _. appending_then as _. appending_then as _.
    appending_then as resources.
    apply appending_for_each. intros resource.
    destruct (String.eqb _ _); [apply IH | auto with frame].
Qed.

(** ** The loops *)

Lemma for_each_ext {A} (f g : A → M unit) (xs : list A) :
  (∀ x w, f x w = g x w) → ∀ w, for_each f xs w = for_each g xs w.
Proof.
  intros Hfg. induction xs as [|x rest IH]; intros w; simpl; [done |].
  unfold bind. rewrite Hfg. by destruct (g x w) as [[[] | e |] w1].
Qed.

Lemma for_each_app {A} (f : A → M unit) (xs ys : list A) w :
  for_each f (xs ++ ys) w = (exec for_each f xs ;; for_each f ys) w.
Proof.
  revert w. induction xs as [|x rest IH]; intros w; simpl; [done |].
  rewrite bind_bind. unfold bind at 1 2.
  destruct (f x w) as [[[] | e |] w1]; [| done | done].
  apply IH.
Qed.

(** Two nested loops visit the elements of the inner lists in order. *)
Lemma for_each_concat {A B} (f : B → M unit) (inner : A → list B)
    (xs : list A) w :
  for_each (λ x, for_each f (inner x)) xs w =
  for_each f (concat (map inner xs)) w.
Proof.
  revert w. induction xs as [|x rest IH]; intros w; simpl; [done |].
  rewrite for_each_app. unfold bind.
  destruct (for_each f (inner x) w) as [[[] | e |] w1]; [| done | done].
  apply IH.
Qed.

(** A loop returns exactly when each of its turns does. *)
Lemma for_each_Ret {A} (body : A → M unit) (xs : list A) w w' :
  for_each body xs w = (Ret tt, w') ↔ visits body xs w w'.
Proof.
  revert w. induction xs as [|x rest IH]; intros w; simpl.
  - split.
    + intros [= <-]. constructor.
    + by inversion 1.
  - unfold bind. split.
    + destruct (body x w) as [[[] | e |] w1] eqn:Hx; [| done | done].
      intros Hrest%IH. by econstructor.
    + inversion 1 as [| ? ? ? w1 ? Hx Hrest]; subst. rewrite Hx. by apply IH.
Qed.

(** The loop over the resources calls [write_logs] on the nested stacks
    among them, and on nothing else. *)
Lemma descend_filter (E : Env) fuel logpath resources w :
  descend E fuel logpath resources w =
  for_each (λ resource, write_logs E fuel (physicalId resource) logpath)
    (filter (λ resource, resourceType resource = nested_stack_type) resources) w.
Proof.
  revert w. unfold descend.
  induction resources as [|resource rest IH]; intros w; [done |].
  cbn [for_each]. destruct (String.eqb_spec (resourceType resource)
                                             nested_stack_type) as [Heq | Hne].
  - rewrite filter_cons_True by done. cbn [for_each]. unfold bind.
    destruct (write_logs E fuel (physicalId resource) logpath w)
      as [[[] | e |] w1]; [| done | done].
    apply IH.
  - rewrite filter_cons_False by done. apply IH.
Qed.

Lemma content_reported (E : Env) stackname region logpath cfnlogs reason w :
  content (reported E stackname region logpath cfnlogs reason w) logpath =
  content w logpath +:+
  report_block E region stackname reason cfnlogs (strftime E (S (clock w))).
Proof. unfold reported, content at 1; simpl. by rewrite lookup_insert_eq. Qed.

(** C4. On a stack whose normalized event list is empty, [write_logs] logs
    one record at error severity and returns; it opens and writes no file,
    so that no file is created or changed; and the loop of the parent goes
    on with the resources that follow. *)
Theorem write_logs_no_events (E : Env) (fuel : nat) (stack_id logpath : string)
    (w w1 : World) :
  get_cfnlogs E fuel (stack_name (parse_stack_info E stack_id))
              (region (parse_stack_info E stack_id)) w = (Ret [], w1) →
  write_logs E (S fuel) stack_id logpath w =
    (Ret tt, emit (mkLogRecord ERROR no_events_message None) w1)
  ∧ files (write_logs E (S fuel) stack_id logpath w).2 = files w
  ∧ ∀ siblings,
      descend E (S fuel) logpath
        (mkResource nested_stack_type stack_id :: siblings) w =
      descend E (S fuel) logpath siblings
        (emit (mkLogRecord ERROR no_events_message None) w1).
Proof.
  intros Hlogs.
  pose proof (write_logs_empty E fuel stack_id logpath w w1 Hlogs) as Hrun.
  split; [done |]. split.
  - rewrite Hrun. simpl.
    pose proof (get_cfnlogs_silent E fuel
                  (stack_name (parse_stack_info E stack_id))
                  (region (parse_stack_info E stack_id)) w) as [Hfiles _].
    by rewrite Hlogs in Hfiles.
  - intros siblings. unfold descend at 1. cbn [for_each resourceType physicalId].
    rewrite String.eqb_refl. by rewrite (bind_Ret _ _ _ _ _ Hrun).
Qed.

(** C5. Once it has written its own report, [write_logs] goes through the
    resources of the stack in order and calls itself once on the
    [physicalId] of each resource whose [resourceType] is
    "AWS::CloudFormation::Stack", with the same log path, and on no other
    resource: it returns exactly when each of these calls, run in turn,
    returns. *)
Theorem write_logs_recursion (E : Env) (fuel : nat) (stack_id logpath : string)
    (w w1 : World) (first : gmap string value)
    (rest : list (gmap string value)) (resources : list Resource) :
  let stackname := stack_name (parse_stack_info E stack_id) in
  let region := region (parse_stack_info E stack_id) in
  get_cfnlogs E fuel stackname region w = (Ret (first :: rest), w1) →
  get_resources E stackname region = Ok resources →
  ∃ reason,
    outcome_reason first = Ok reason
    ∧ let nested :=
        filter (λ resource, resourceType resource = "AWS::CloudFormation::Stack")
               resources in
      let recurse := λ resource,
        write_logs E fuel (physicalId resource) logpath in
      let w2 := reported E stackname region logpath (first :: rest) reason w1 in
      write_logs E (S fuel) stack_id logpath w = for_each recurse nested w2
      ∧ ∀ w', write_logs E (S fuel) stack_id logpath w = (Ret tt, w') ↔
              visits recurse nested w2 w'.
Proof.
  intros stackname region Hlogs Hresources.
  destruct (get_cfnlogs_reason E _ _ _ _ _ _ _ Hlogs) as [reason Hreason].
  exists reason. split; [done |]. cbv zeta.
  assert (write_logs E (S fuel) stack_id logpath w =
          for_each (λ resource, write_logs E fuel (physicalId resource) logpath)
            (filter (λ resource, resourceType resource = nested_stack_type)
                    resources)
            (reported E stackname region logpath (first :: rest) reason w1))
    as Hrun.
  { rewrite (write_logs_nonempty E fuel stack_id logpath w first rest w1 reason)
      by done.
    fold stackname region. rewrite Hresources. unfold lift.
    rewrite (bind_Ret (ret resources) _ _ resources _ eq_refl).
    apply descend_filter. }
  split; [exact Hrun |]. intros w'. rewrite Hrun. apply for_each_Ret.
Qed.

(** C7. A call of [write_logs] on a stack with events appends to the file
    one block, header, events and footer in one piece, right after what the
    file held; nothing else is written before the resources are visited, so
    the block of a stack comes before everything that the calls on its
    descendants append; and with no nested stack among the resources the
    block is all that the call adds. *)
Theorem write_logs_block (E : Env) (fuel : nat) (stack_id logpath : string)
    (w w1 : World) (first : gmap string value)
    (rest : list (gmap string value)) :
  let stackname := stack_name (parse_stack_info E stack_id) in
  let region := region (parse_stack_info E stack_id) in
  get_cfnlogs E fuel stackname region w = (Ret (first :: rest), w1) →
  ∃ reason,
    outcome_reason first = Ok reason
    ∧ let block :=
        report_block E region stackname reason (first :: rest)
          (strftime E (S (clock w))) in
      let w2 := reported E stackname region logpath (first :: rest) reason w1 in
      let w' := (write_logs E (S fuel) stack_id logpath w).2 in
      files w2 = <[logpath := content w logpath +:+ block]> (files w)
      ∧ write_logs E (S fuel) stack_id logpath w =
          (resources <- lift (get_resources E stackname region) ;;
           descend E fuel logpath resources) w2
      ∧ (∃ descendants,
           content w' logpath = content w logpath +:+ block +:+ descendants)
      ∧ (∀ resources,
           get_resources E stackname region = Ok resources →
           Forall (λ resource,
                     resourceType resource ≠ "AWS::CloudFormation::Stack")
                  resources →
           content w' logpath = content w logpath +:+ block).
Proof.
  intros stackname region Hlogs.
  destruct (get_cfnlogs_reason E _ _ _ _ _ _ _ Hlogs) as [reason Hreason].
  exists reason. split; [done |]. intros block w2 w'.
  pose proof (get_cfnlogs_silent E fuel stackname region w) as [Hfiles Hclock].
  rewrite Hlogs in Hfiles, Hclock. simpl in Hfiles, Hclock.
  pose proof (write_logs_nonempty E fuel stack_id logpath w first rest w1
                reason Hlogs Hreason) as Hrun.
  fold stackname region w2 in Hrun.
  assert (content w2 logpath = content w logpath +:+ block) as Hblock.
  { unfold w2, block. rewrite content_reported. unfold content.
    by rewrite Hfiles, Hclock. }
  split; [| split; [| split]].
  - unfold w2, block, reported, content; simpl. by rewrite Hfiles, Hclock.
  - exact Hrun.
  - assert (extends w2 w') as Hext.
    { unfold w'. rewrite Hrun.
      apply (appending_bind (lift (get_resources E stackname region)));
        [auto with frame |].
      intros resources. apply appending_for_each. intros resource.
      destruct (String.eqb _ _);
        [apply appending_write_logs | auto with frame]. }
    destruct (Hext logpath) as [descendants Hd]. exists descendants.
    by rewrite Hd, Hblock, append_assoc.
  - intros resources Hresources Hleaf. unfold w'. rewrite Hrun, Hresources.
    unfold lift. rewrite (bind_Ret (ret resources) _ _ resources _ eq_refl).
    rewrite descend_filter.
    replace (filter _ resources) with (@nil Resource); [done |].
    symmetry. clear -Hleaf.
    induction Hleaf as [|resource others Hne _ IH]; [done |].
    by rewrite filter_cons_False.
Qed.

(** C9. [createcfnlogs] goes through the stacks of the tests one after the
    other, in the order of the input, and for each calls [write_logs] with
    the stack identifier and the path
    [{directory}/{stack_name}-{region}-cfnlogs.txt], where the name and the
    region are those the parser finds in the identifier; it returns exactly
    when each of these calls, run in turn, returns. *)
Theorem createcfnlogs_sequential (E : Env) (fuel : nat)
    (testdata_list : list TestData) (logpath : string) (w : World) :
  let write_stack := λ stack,
    let stackinfo := parse_stack_info E (StackId stack) in
    write_logs E fuel (StackId stack)
      (logpath +:+ "/" +:+ stack_name stackinfo +:+ "-" +:+ region stackinfo
       +:+ "-cfnlogs.txt") in
  let stacks := concat (map get_test_stacks testdata_list) in
  let w0 := emit (mkLogRecord INFO "Collecting CloudFormation Logs" None) w in
  createcfnlogs E fuel testdata_list logpath w = for_each write_stack stacks w0
  ∧ ∀ w', createcfnlogs E fuel testdata_list logpath w = (Ret tt, w') ↔
          visits write_stack stacks w0 w'.
Proof.
  intros write_stack stacks w0.
  assert (createcfnlogs E fuel testdata_list logpath w =
          for_each write_stack stacks w0) as Hrun.
  { unfold createcfnlogs, LOG_info. rewrite bind_act.
    rewrite for_each_concat. by apply for_each_ext. }
  split; [exact Hrun |]. intros w'. rewrite Hrun. apply for_each_Ret.
Qed.

(** ** The properties on the example provider *)

Lemma get_cfn_stack_events_pages_witness :
  paged Fixture.env "us-east-1" "paged" None Fixture.paged_pages None
  ∧ length Fixture.paged_pages ≤ 3
  ∧ get_cfn_stack_events Fixture.env 3 "paged" "us-east-1" Fixture.w0 =
      (Ret [Fixture.event "DELETE_COMPLETE" None;
            Fixture.event "DELETE_IN_PROGRESS" None;
            Fixture.event "CREATE_COMPLETE" None;
            Fixture.event "CREATE_IN_PROGRESS" (Some "User Initiated")],
       sent_all [mkRequest "us-east-1" "paged" None;
                 mkRequest "us-east-1" "paged" (Some "t1");
                 mkRequest "us-east-1" "paged" (Some "t2")] Fixture.w0).
Proof.
  assert (paged Fixture.env "us-east-1" "paged" None Fixture.paged_pages None)
    as Hpaged.
  { eapply paged_next; [reflexivity | reflexivity |].
    eapply paged_next; [reflexivity | reflexivity |].
    eapply paged_last; reflexivity. }
  assert (length Fixture.paged_pages ≤ 3) as Hfuel by (simpl; lia).
  split; [exact Hpaged |]. split; [exact Hfuel |].
  exact (proj1 (get_cfn_stack_events_pages Fixture.env 3 "paged" "us-east-1"
                  Fixture.paged_pages Fixture.w0 Hpaged Hfuel)).
Defined.

Lemma get_cfn_stack_events_client_error_witness :
  paged Fixture.env "us-east-1" "flaky" None Fixture.flaky_pages
        (Some (ClientError "Throttling"))
  ∧ is_ClientError (ClientError "Throttling") = true
  ∧ length Fixture.flaky_pages ≤ 1
  ∧ get_cfn_stack_events Fixture.env 1 "flaky" "us-east-1" Fixture.w0 =
      (Ret [Fixture.event "ROLLBACK_COMPLETE" None],
       emit (mkLogRecord ERROR
               (fetch_error_message "flaky" "us-east-1"
                  (ClientError "Throttling")) None)
         (sent_all [mkRequest "us-east-1" "flaky" None;
                    mkRequest "us-east-1" "flaky" (Some "t1")] Fixture.w0)).
Proof.
  assert (paged Fixture.env "us-east-1" "flaky" None Fixture.flaky_pages
            (Some (ClientError "Throttling"))) as Hpaged.
  { eapply paged_next; [reflexivity | reflexivity |].
    eapply paged_fail; reflexivity. }
  assert (length Fixture.flaky_pages ≤ 1) as Hfuel by (simpl; lia).
  split; [exact Hpaged |]. split; [reflexivity |]. split; [exact Hfuel |].
  exact (get_cfn_stack_events_client_error Fixture.env 1 "flaky" "us-east-1"
           Fixture.flaky_pages (ClientError "Throttling") Fixture.w0
           Hpaged eq_refl Hfuel).
Defined.

(** C3, where the code departs from it. The first request for the stack
    "offline" fails with an exception that is not a [ClientError]: the
    handler, whose comment wants a failed describe call not to stop the
    caller, does not catch it, and [get_cfn_stack_events] raises instead of
    logging the failure and returning the empty list. *)
Lemma get_cfn_stack_events_propagates :
  paged Fixture.env "us-east-1" "offline" None []
        (Some (BotoCoreError "Could not connect to the endpoint URL"))
  ∧ get_cfn_stack_events Fixture.env 1 "offline" "us-east-1" Fixture.w0 =
      (Raise (BotoCoreError "Could not connect to the endpoint URL"),
       sent (mkRequest "us-east-1" "offline" None) Fixture.w0)
  ∧ (get_cfn_stack_events Fixture.env 1 "offline" "us-east-1" Fixture.w0).1
      ≠ Ret [].
Proof.
  split; [by apply paged_fail |]. split; [reflexivity | done].
Qed.

Lemma get_cfnlogs_status_reason_witness :
  get_cfn_stack_events Fixture.env 0 "pending" "us-east-1"
    (emit (mkLogRecord INFO
             ("Collecting logs for " +:+ "pending" +:+ DQUOTE +:+ LF) None)
          Fixture.w0)
    = (Ret [Fixture.event "CREATE_IN_PROGRESS" None],
       Fixture.collected "pending")
  ∧ Forall (λ event, has_required_keys event = true)
           [Fixture.event "CREATE_IN_PROGRESS" None]
  ∧ ∃ events,
      get_cfnlogs Fixture.env 0 "pending" "us-east-1" Fixture.w0 =
        (Ret events, Fixture.collected "pending")
      ∧ Forall2 reason_projected
          [Fixture.event "CREATE_IN_PROGRESS" None] events.
Proof.
  assert (get_cfn_stack_events Fixture.env 0 "pending" "us-east-1"
            (emit (mkLogRecord INFO
                     ("Collecting logs for " +:+ "pending" +:+ DQUOTE +:+ LF)
                     None) Fixture.w0)
          = (Ret [Fixture.event "CREATE_IN_PROGRESS" None],
             Fixture.collected "pending")) as Hfetch
    by reflexivity.
  assert (Forall (λ event, has_required_keys event = true)
                 [Fixture.event "CREATE_IN_PROGRESS" None]) as Hkeys
    by (repeat constructor).
  split; [exact Hfetch |]. split; [exact Hkeys |].
  exact (proj2 (get_cfnlogs_status_reason Fixture.env 0 "pending" "us-east-1"
                  Fixture.w0 _ _ Hfetch) Hkeys).
Defined.

(** C10, as stated, fails: on a raw event that carries nothing but its
    [Timestamp], the normalization raises [KeyError] and returns no list. *)
Lemma normalize_raises :
  normalize [Fixture.bare_event] [] = Err (KeyError "ResourceStatus")
  ∧ (get_cfnlogs Fixture.env 0 "bare" "us-east-1" Fixture.w0).1 =
      Raise (KeyError "ResourceStatus")
  ∧ ¬ ∃ events,
      normalize [Fixture.bare_event] [] = Ok events ∧ length events = 1.
Proof.
  split; [reflexivity |]. split; [reflexivity |].
  intros (events & Hnorm & _). discriminate Hnorm.
Qed.

Lemma normalize_total_witness :
  Forall (λ event, has_required_keys event = true)
    [Fixture.event "CREATE_FAILED" (Some "Resource X failed");
     Fixture.event "CREATE_IN_PROGRESS" None]
  ∧ ∃ events,
      normalize [Fixture.event "CREATE_FAILED" (Some "Resource X failed");
                 Fixture.event "CREATE_IN_PROGRESS" None] [] = Ok events
      ∧ length events = 2
      ∧ ∀ w, lift (normalize
                     [Fixture.event "CREATE_FAILED" (Some "Resource X failed");
                      Fixture.event "CREATE_IN_PROGRESS" None] []) w
             = (Ret events, w).
Proof.
  assert (Forall (λ event, has_required_keys event = true)
            [Fixture.event "CREATE_FAILED" (Some "Resource X failed");
             Fixture.event "CREATE_IN_PROGRESS" None]) as Hkeys
    by (repeat constructor).
  split; [exact Hkeys |]. exact (normalize_total _ Hkeys).
Defined.

Lemma write_logs_outcome_reason_witness :
  Fixture.normalized "CREATE_FAILED" "Resource X failed" !! "ResourceStatus"
    = Some (Str "CREATE_FAILED")
  ∧ outcome_reason (Fixture.normalized "CREATE_FAILED" "Resource X failed")
    = Ok (Str "Resource X failed").
Proof.
  assert (Fixture.normalized "CREATE_FAILED" "Resource X failed"
            !! "ResourceStatus" = Some (Str "CREATE_FAILED")) as Hstatus
    by reflexivity.
  split; [exact Hstatus |].
  refine (proj1 (proj2 (write_logs_outcome_reason Fixture.env _ _ Hstatus))
            _ (Str "Resource X failed") _); [discriminate | reflexivity].
Defined.

Lemma get_cfnlogs_reason_key_witness :
  get_cfnlogs Fixture.env 0 "pending" "us-east-1" Fixture.w0 =
    (Ret [Fixture.normalized "CREATE_IN_PROGRESS" EmptyString],
     Fixture.collected "pending")
  ∧ contains (Fixture.normalized "CREATE_IN_PROGRESS" EmptyString)
             "ResourceStatusReason" = true.
Proof.
  assert (get_cfnlogs Fixture.env 0 "pending" "us-east-1" Fixture.w0 =
            (Ret [Fixture.normalized "CREATE_IN_PROGRESS" EmptyString],
             Fixture.collected "pending")) as Hlogs
    by reflexivity.
  split; [exact Hlogs |].
  exact (proj1 (get_cfnlogs_reason_key Fixture.env 0 "pending" "us-east-1"
                  Fixture.w0 _ _ [] Hlogs)).
Defined.

Lemma write_logs_no_events_witness :
  get_cfnlogs Fixture.env 0 "empty" "us-east-1" Fixture.w0 =
    (Ret [], Fixture.collected "empty")
  ∧ write_logs Fixture.env 1 "arn:empty" "logs/parent-us-east-1-cfnlogs.txt"
      Fixture.w0 =
      (Ret tt,
       emit (mkLogRecord ERROR no_events_message None)
            (Fixture.collected "empty"))
  ∧ files (write_logs Fixture.env 1 "arn:empty"
             "logs/parent-us-east-1-cfnlogs.txt" Fixture.w0).2 = ∅.
Proof.
  assert (get_cfnlogs Fixture.env 0 "empty" "us-east-1" Fixture.w0 =
            (Ret [], Fixture.collected "empty")) as Hlogs
    by reflexivity.
  split; [exact Hlogs |].
  destruct (write_logs_no_events Fixture.env 0 "arn:empty"
              "logs/parent-us-east-1-cfnlogs.txt" Fixture.w0
              (Fixture.collected "empty") Hlogs) as (Hrun & Hfiles & _).
  split; [exact Hrun | exact Hfiles].
Defined.

Lemma write_logs_recursion_witness :
  get_cfnlogs Fixture.env 1 "family" "us-east-1" Fixture.w0 =
    (Ret [Fixture.normalized "CREATE_COMPLETE" EmptyString],
     Fixture.collected "family")
  ∧ get_resources Fixture.env "family" "us-east-1" =
      Ok [Fixture.nested "arn:child"; Fixture.bucket;
          Fixture.nested "arn:pending"]
  ∧ ∃ reason,
      outcome_reason (Fixture.normalized "CREATE_COMPLETE" EmptyString) =
        Ok reason
      ∧ write_logs Fixture.env 2 "arn:family"
          "logs/family-us-east-1-cfnlogs.txt" Fixture.w0 =
          for_each (λ resource,
              write_logs Fixture.env 1 (physicalId resource)
                "logs/family-us-east-1-cfnlogs.txt")
            [Fixture.nested "arn:child"; Fixture.nested "arn:pending"]
            (reported Fixture.env "family" "us-east-1"
               "logs/family-us-east-1-cfnlogs.txt"
               [Fixture.normalized "CREATE_COMPLETE" EmptyString]
               reason (Fixture.collected "family")).
Proof.
  assert (get_cfnlogs Fixture.env 1 "family" "us-east-1" Fixture.w0 =
            (Ret [Fixture.normalized "CREATE_COMPLETE" EmptyString],
             Fixture.collected "family")) as Hlogs
    by reflexivity.
  split; [exact Hlogs |]. split; [reflexivity |].
  destruct (write_logs_recursion Fixture.env 1 "arn:family"
              "logs/family-us-east-1-cfnlogs.txt" Fixture.w0
              (Fixture.collected "family") _ []
              [Fixture.nested "arn:child"; Fixture.bucket;
               Fixture.nested "arn:pending"]
              Hlogs eq_refl) as (reason & Hreason & Hrun & _).
  exists reason. split; [exact Hreason | exact Hrun].
Defined.

Lemma write_logs_block_witness :
  get_cfnlogs Fixture.env 1 "parent" "us-east-1" Fixture.w0 =
    (Ret [Fixture.normalized "CREATE_COMPLETE" EmptyString],
     Fixture.collected "parent")
  ∧ ∃ reason descendants,
      outcome_reason (Fixture.normalized "CREATE_COMPLETE" EmptyString) =
        Ok reason
      ∧ content (write_logs Fixture.env 2 "arn:parent"
                   "logs/parent-us-east-1-cfnlogs.txt" Fixture.w0).2
                "logs/parent-us-east-1-cfnlogs.txt" =
        content Fixture.w0 "logs/parent-us-east-1-cfnlogs.txt"
        +:+ report_block Fixture.env "us-east-1" "parent" reason
              [Fixture.normalized "CREATE_COMPLETE" EmptyString]
              (strftime Fixture.env 1)
        +:+ descendants.
Proof.
  assert (get_cfnlogs Fixture.env 1 "parent" "us-east-1" Fixture.w0 =
            (Ret [Fixture.normalized "CREATE_COMPLETE" EmptyString],
             Fixture.collected "parent")) as Hlogs
    by reflexivity.
  split; [exact Hlogs |].
  destruct (write_logs_block Fixture.env 1 "arn:parent"
              "logs/parent-us-east-1-cfnlogs.txt" Fixture.w0
              (Fixture.collected "parent") _ [] Hlogs)
    as (reason & Hreason & _ & _ & [descendants Hfile] & _).
  exists reason, descendants. split; [exact Hreason | exact Hfile].
Defined.

(** A parent stack with one "CREATE_COMPLETE" event and one nested stack
    with one "CREATE_FAILED" event: the file holds the block of the parent,
    with "Stack launch was successful", then the block of the child, with
    "Resource X failed", and nothing else. *)
Example parent_then_child :
  write_logs Fixture.env 2 "arn:parent" "logs/parent-us-east-1-cfnlogs.txt"
    Fixture.w0 = 
  (Ret tt,
   (write_logs Fixture.env 2 "arn:parent" "logs/parent-us-east-1-cfnlogs.txt"
      Fixture.w0).2)
  ∧ files (write_logs Fixture.env 2 "arn:parent"
             "logs/parent-us-east-1-cfnlogs.txt" Fixture.w0).2 =
    {[ "logs/parent-us-east-1-cfnlogs.txt" :=
         report_block Fixture.env "us-east-1" "parent"
           (Str "Stack launch was successful")
           [Fixture.normalized "CREATE_COMPLETE" EmptyString]
           (strftime Fixture.env 1)
         +:+ report_block Fixture.env "us-east-1" "child"
               (Str "Resource X failed")
               [Fixture.normalized "CREATE_FAILED" "Resource X failed"]
               (strftime Fixture.env 3) ]}.
Proof. split; reflexivity. Qed.

(** ** Further properties of the normalizer *)

Lemma event_details_fields (event details : gmap string value) :
  event_details event = Ok details → fields_projected event details.
Proof.
  intros (timestamp & status & type & logical_id
          & Ht & Hs & Hy & Hl & ->)%event_details_Ok.
  unfold fields_projected. rewrite Ht, Hs, Hy, Hl.
  repeat split;
    repeat first [ rewrite lookup_insert_eq | rewrite lookup_insert_ne by done
                 | rewrite lookup_empty ];
    done.
Qed.

Lemma event_details_dom (event details : gmap string value) :
  event_details event = Ok details → dom details = normalized_keys.
Proof.
  intros (timestamp & status & type & logical_id
          & _ & _ & _ & _ & ->)%event_details_Ok.
  rewrite !dom_insert_L, dom_empty_L. unfold normalized_keys. set_solver.
Qed.

(** A normalized event is not a raw event: it has no [Timestamp]. *)
Lemma event_details_twice (event details : gmap string value) :
  event_details event = Ok details →
  event_details details = Err (KeyError "Timestamp").
Proof.
  intros (_ & Habsent & _)%event_details_fields.
  unfold event_details, getitem. by rewrite Habsent.
Qed.

Lemma event_details_first_missing (event : gmap string value) k :
  first_missing event = Some k → event_details event = Err (KeyError k).
Proof.
  unfold first_missing, required_keys, event_details, getitem, contains.
  cbn [List.find].
  destruct (event !! "Timestamp") as [timestamp |];
    [rewrite bool_decide_eq_true_2 by by eexists
    | rewrite bool_decide_eq_false_2 by (by intros []); by intros [= <-]].
  destruct (event !! "ResourceStatus") as [status |];
    [rewrite bool_decide_eq_true_2 by by eexists
    | rewrite bool_decide_eq_false_2 by (by intros []); by intros [= <-]].
  destruct (event !! "ResourceType") as [type |];
    [rewrite bool_decide_eq_true_2 by by eexists
    | rewrite bool_decide_eq_false_2 by (by intros []); by intros [= <-]].
  destruct (event !! "LogicalResourceId") as [logical_id |];
    [rewrite bool_decide_eq_true_2 by by eexists
    | rewrite bool_decide_eq_false_2 by (by intros []); by intros [= <-]].
  done.
Qed.

Lemma normalize_app (front back events : list (gmap string value)) :
  normalize (front ++ back) events =
  and_then (normalize front events) (normalize back).
Proof.
  revert events. induction front as [|event front IH]; intros events; [done |].
  simpl. destruct (event_details event) as [details | e]; simpl; [| done].
  apply IH.
Qed.

(** X1. Whatever keys the raw events carry, every normalized event that
    [get_cfnlogs] returns has exactly the five keys [TimeStamp],
    [ResourceStatus], [ResourceType], [LogicalResourceId] and
    [ResourceStatusReason]. *)
Theorem get_cfnlogs_keys (E : Env) (fuel : nat) (stackname region : string)
    (w w' : World) (events : list (gmap string value)) :
  get_cfnlogs E fuel stackname region w = (Ret events, w') →
  Forall (λ details, dom details = normalized_keys) events.
Proof.
  intros (stack_events & _ & Hnorm)%get_cfnlogs_Ret.
  apply normalize_Ok in Hnorm as (normalized & -> & Hall). simpl.
  induction Hall as [|event details raws normalized Hd _ IH]; constructor.
  - by eapply event_details_dom.
  - exact IH.
Qed.

(** X2. In the list [get_cfnlogs] returns, the event at each position holds
    the timestamp of the raw event under the key [TimeStamp], not
    [Timestamp], and its status, type and logical id under their own keys,
    all unchanged; so a normalized event cannot be normalized again: the
    loop raises [KeyError] on [Timestamp]. *)
Theorem get_cfnlogs_fields (E : Env) (fuel : nat) (stackname region : string)
    (w w' : World) (events : list (gmap string value)) :
  get_cfnlogs E fuel stackname region w = (Ret events, w') →
  ∃ stack_events,
    get_cfn_stack_events E fuel stackname region (emit (collecting stackname) w)
      = (Ret stack_events, w')
    ∧ Forall2 fields_projected stack_events events
    ∧ Forall (λ details, event_details details = Err (KeyError "Timestamp"))
             events.
Proof.
  intros (stack_events & Hfetch & Hnorm)%get_cfnlogs_Ret.
  exists stack_events. split; [exact Hfetch |].
  apply normalize_Ok in Hnorm as (normalized & -> & Hall). simpl. split.
  - eapply Forall2_impl; [exact Hall |]. apply event_details_fields.
  - clear Hfetch.
    induction Hall as [|event details raws normalized Hd _ IH]; constructor.
    + by eapply event_details_twice.
    + exact IH.
Qed.

(** X3. When the fetched events are sound up to one that lacks a key the
    loop indexes, [get_cfnlogs] raises [KeyError] on the first such key in
    the order [Timestamp], [ResourceStatus], [ResourceType],
    [LogicalResourceId]; the events normalized before are not returned, and
    the world is the one the fetch left. *)
Theorem get_cfnlogs_key_error (E : Env) (fuel : nat) (stackname region : string)
    (w w1 : World) (sound : list (gmap string value))
    (event : gmap string value) (others : list (gmap string value))
    (k : string) :
  get_cfn_stack_events E fuel stackname region (emit (collecting stackname) w)
    = (Ret (sound ++ event :: others), w1) →
  Forall (λ event, has_required_keys event = true) sound →
  first_missing event = Some k →
  get_cfnlogs E fuel stackname region w = (Raise (KeyError k), w1).
Proof.
  intros Hfetch (normalized & Hsound & _)%normalize_complete Hmissing.
  unfold get_cfnlogs, LOG_info. rewrite bind_act.
  unfold collecting in Hfetch. rewrite (bind_Ret _ _ _ _ _ Hfetch).
  rewrite normalize_app, Hsound. simpl.
  by rewrite (event_details_first_missing _ _ Hmissing).
Qed.

(** X4. When the pages of a stack are served until a request raises
    [ClientError], or to the last, and their events carry the keys the loop
    indexes, [get_cfnlogs] returns normally the normalized events of the
    pages served, one per raw event and in order: a list cut short by a
    failed request comes back as a complete one does. *)
Theorem get_cfnlogs_paged (E : Env) (fuel : nat) (stackname region : string)
    (pages : list Response) (final : option exn) (w : World) :
  paged E region stackname None pages final →
  from_option is_ClientError true final = true →
  Forall (λ event, has_required_keys event = true)
         (concat (map StackEvents pages)) →
  length pages ≤ fuel →
  ∃ events,
    (get_cfnlogs E fuel stackname region w).1 = Ret events
    ∧ Forall2 (λ event details, event_details event = Ok details)
              (concat (map StackEvents pages)) events
    ∧ requests (get_cfnlogs E fuel stackname region w).2 =
        requests w
        ++ map (mkRequest region stackname) (token_trail None pages final).
Proof.
  intros Hpaged Hfinal (events & Hnorm & Hall)%normalize_complete Hfuel.
  exists events.
  assert (∃ w1,
    get_cfn_stack_events E fuel stackname region (emit (collecting stackname) w)
      = (Ret (events_of pages), w1)
    ∧ requests w1 =
        requests w
        ++ map (mkRequest region stackname) (token_trail None pages final))
    as (w1 & Hfetch & Hrequests).
  { unfold get_cfn_stack_events.
    rewrite (try_body_paged E region stackname pages final fuel _) by done.
    destruct final as [e |]; [| by eexists]. simpl in Hfinal.
    rewrite Hfinal. by eexists. }
  unfold get_cfnlogs, LOG_info. rewrite bind_act.
  unfold collecting in Hfetch. rewrite (bind_Ret _ _ _ _ _ Hfetch).
  unfold events_of in *. by rewrite Hnorm.
Qed.

(** ** Further properties of the event fetcher *)

Lemma follow_tokens_requests (E : Env) fuel region stackname :
  ∀ response stack_events w,
    let run := follow_tokens E fuel region stackname response stack_events w in
    ∃ tokens,
      length tokens ≤ fuel
      ∧ requests run.2.2 =
          requests w
          ++ map (λ token, mkRequest region stackname (Some token)) tokens
      ∧ LOG run.2.2 = LOG w.
Proof.
  assert (∀ (n : nat) (w : World),
            ∃ tokens : list string,
              length tokens ≤ n
              ∧ requests w =
                  requests w
                  ++ map (λ token, mkRequest region stackname (Some token))
                         tokens
              ∧ LOG w = LOG w) as Hnone.
  { intros n w. exists []. simpl. rewrite app_nil_r. split; [lia | done]. }
  induction fuel as [|fuel IH]; intros response stack_events w; simpl;
    destruct (NextToken response) as [token |]; simpl; try apply Hnone.
  unfold call_describe.
  destruct (describe_stack_events E region stackname (Some token))
    as [response' | e].
  - destruct (IH response' (stack_events ++ StackEvents response')
                (sent (mkRequest region stackname (Some token)) w))
      as (tokens & Hlength & Hrequests & Hlog).
    exists (token :: tokens). simpl. split; [lia |].
    rewrite Hrequests, Hlog. simpl. by rewrite <- app_assoc.
  - exists [token]. simpl. split; [lia | done].
Qed.

(** With the client in hand and whatever the provider answers: a first
    request without token and then only requests that carry a token, all for
    the stack and the region given; no file touched and no reading of the
    clock; nothing logged, or one record at error severity for a
    [ClientError]; and no [ClientError] raised. *)
Lemma get_cfn_stack_events_requests (E : Env) (fuel : nat)
    (stackname region : string) (w : World) :
  let run := get_cfn_stack_events E fuel stackname region w in
  (∃ tokens,
     length tokens ≤ fuel
     ∧ requests run.2 = requests w ++ requests_for region stackname tokens)
  ∧ files run.2 = files w
  ∧ clock run.2 = clock w
  ∧ (LOG run.2 = LOG w
     ∨ ∃ e, is_ClientError e = true
            ∧ LOG run.2 =
                LOG w
                ++ [mkLogRecord ERROR (fetch_error_message stackname region e)
                      None])
  ∧ (∀ e, run.1 = Raise e → is_ClientError e = false).
Proof.
  intros run.
  destruct (get_cfn_stack_events_silent E fuel stackname region w)
    as [Hfiles Hclock].
  enough ((∃ tokens,
             length tokens ≤ fuel
             ∧ requests run.2 =
                 requests w ++ requests_for region stackname tokens)
          ∧ (LOG run.2 = LOG w
             ∨ ∃ e, is_ClientError e = true
                    ∧ LOG run.2 =
                        LOG w
                        ++ [mkLogRecord ERROR
                              (fetch_error_message stackname region e) None])
          ∧ (∀ e, run.1 = Raise e → is_ClientError e = false))
    as (Hrequests & Hlog & Hraise) by done.
  subst run. clear Hfiles Hclock.
  unfold get_cfn_stack_events, try_body, call_describe, requests_for.
  destruct (describe_stack_events E region stackname None) as [response | e].
  - pose proof (follow_tokens_requests E fuel region stackname response
                  ([] ++ StackEvents response)
                  (sent (mkRequest region stackname None) w)) as Hloop.
    cbv zeta in Hloop.
    destruct (follow_tokens _ _ _ _ _ _ _) as [[[] | e |] [events w1]];
      destruct Hloop as (tokens & Hlength & Hrequests & Hlog);
      simpl in Hrequests, Hlog; rewrite <- app_assoc in Hrequests.
    + split; [by exists tokens |]. split; [by left | done].
    + destruct (is_ClientError e) eqn:Hclass; simpl.
      * split; [by exists tokens |]. split; [| done].
        right. exists e. by rewrite Hlog.
      * split; [by exists tokens |]. split; [by left |]. by intros ? [= <-].
    + split; [by exists tokens |]. split; [by left | done].
  - destruct (is_ClientError e) eqn:Hclass; simpl.
    + split; [exists []; split; [simpl; lia | done] |]. split; [| done].
      right. by exists e.
    + split; [exists []; split; [simpl; lia | done] |].
      split; [by left |]. by intros ? [= <-].
Qed.

(** X5. [get_cfn_stack_events] obtains the client before the [try]: when
    that raises, the exception, a [ClientError] included, reaches the caller
    with nothing logged and no request sent. Once the client is obtained,
    whatever the provider answers, the call sends a first request without
    token and then only requests that carry a token, all for the stack and
    the region it was given; it logs nothing, or one record at error
    severity for a [ClientError]; and the exception it raises, if any, is not
    a [ClientError]. Either way it touches no file and does not read the
    clock. *)
Theorem get_cfn_stack_events_with_client_requests (B : BotoClient) (E : Env)
    (fuel : nat) (stackname region : string) (w : World) :
  let run := get_cfn_stack_events_with_client B E fuel stackname region w in
  (∀ e, boto_get B "cloudformation" region = Err e → run = (Raise e, w))
  ∧ (boto_get B "cloudformation" region = Ok tt →
     (∃ tokens,
        length tokens ≤ fuel
        ∧ requests run.2 = requests w ++ requests_for region stackname tokens)
     ∧ (LOG run.2 = LOG w
        ∨ ∃ e, is_ClientError e = true
               ∧ LOG run.2 =
                   LOG w
                   ++ [mkLogRecord ERROR
                         (fetch_error_message stackname region e) None])
     ∧ (∀ e, run.1 = Raise e → is_ClientError e = false))
  ∧ files run.2 = files w
  ∧ clock run.2 = clock w.
Proof.
  intros run. subst run. unfold get_cfn_stack_events_with_client.
  destruct (boto_get B "cloudformation" region) as [[] | e0]; simpl.
  - rewrite (bind_Ret (ret tt) _ w tt w eq_refl).
    destruct (get_cfn_stack_events_requests E fuel stackname region w)
      as (Hrequests & Hfiles & Hclock & Hlog & Hraise).
    split; [done |]. split; [| done]. intros _. done.
  - split; [by intros e [= <-] |]. split; done.
Qed.

Lemma follow_tokens_endless (E : Env) fuel region stackname :
  (∀ token, ∃ response next,
     describe_stack_events E region stackname token = Ok response
     ∧ NextToken response = Some next) →
  ∀ response stack_events w,
    is_Some (NextToken response) →
    let run := follow_tokens E fuel region stackname response stack_events w in
    run.1 = OutOfFuel
    ∧ length (requests run.2.2) = length (requests w) + fuel.
Proof.
  intros Hprovider.
  induction fuel as [|fuel IH]; intros response stack_events w [token Htoken];
    simpl; rewrite Htoken.
  - simpl. split; [done | lia].
  - unfold call_describe.
    destruct (Hprovider (Some token)) as (response' & next & -> & Hnext).
    destruct (IH response' (stack_events ++ StackEvents response')
                (sent (mkRequest region stackname (Some token)) w))
      as [Hout Hlength]; [by eexists |].
    split; [exact Hout |]. rewrite Hlength. simpl. rewrite length_app. simpl.
    lia.
Qed.

(** X6. The pagination loop has no bound of its own: when every response of
    the provider carries a continuation token, [get_cfn_stack_events] does
    not return, however many requests it is allowed; allowed [n] requests
    after the first, it sends them all. *)
Theorem get_cfn_stack_events_endless (E : Env) (stackname region : string) :
  (∀ token, ∃ response next,
     describe_stack_events E region stackname token = Ok response
     ∧ NextToken response = Some next) →
  ∀ fuel w,
    let run := get_cfn_stack_events E fuel stackname region w in
    run.1 = OutOfFuel
    ∧ length (requests run.2) = length (requests w) + S fuel.
Proof.
  intros Hprovider fuel w. cbv zeta.
  unfold get_cfn_stack_events, try_body, call_describe.
  destruct (Hprovider None) as (response & next & -> & Hnext).
  destruct (follow_tokens_endless E fuel region stackname Hprovider response
              ([] ++ StackEvents response)
              (sent (mkRequest region stackname None) w))
    as [Hout Hlength]; [by eexists |].
  destruct (follow_tokens _ _ _ _ _ _ _) as [o [events w1]].
  simpl in Hout, Hlength. subst o. simpl. split; [done |].
  rewrite Hlength. simpl. rewrite length_app. simpl. lia.
Qed.

(** ** Relations that every run keeps *)

Section Observed.

Context (R : relation World) `{!Observes R}.

Lemma keeps_ret {A} (a : A) : keeps R (ret a).
Proof using Type*. intros w. reflexivity. Qed.

Lemma keeps_raise {A} (e : exn) : keeps R (@raise A e).
Proof using Type*. intros w. reflexivity. Qed.

Lemma keeps_lift {A} (r : result A) : keeps R (lift r).
Proof using Type*. destruct r; [apply keeps_ret | apply keeps_raise]. Qed.

Lemma keeps_act (f : World → World) : (∀ w, R w (f w)) → keeps R (act f).
Proof using Type*. intros Hf w. apply Hf. Qed.

Lemma keeps_now (render : nat → string) : keeps R (now render).
Proof using Type*. intros w. apply observes_tick. Qed.

Lemma keeps_bind {A B} (m : M A) (k : A → M B) :
  keeps R m → (∀ a, keeps R (k a)) → keeps R (bind m k).
Proof using Type*.
  intros Hm Hk w. unfold bind. specialize (Hm w).
  destruct (m w) as [[a | e |] w1]; simpl in *; [| done | done].
  etrans; [exact Hm | apply Hk].
Qed.

Lemma keeps_for_each {A} (body : A → M unit) (xs : list A) :
  (∀ x, x ∈ xs → keeps R (body x)) → keeps R (for_each body xs).
Proof using Type*.
  induction xs as [|x rest IH]; intros Hbody; simpl; [apply keeps_ret |].
  apply keeps_bind; [apply Hbody; left |]. intros _.
  apply IH. intros y Hy. apply Hbody. by right.
Qed.

Lemma keeps_follow_tokens (E : Env) fuel region stackname :
  ∀ response stack_events w,
    R w (follow_tokens E fuel region stackname response stack_events w).2.2.
Proof using Type*.
  induction fuel as [|fuel IH]; intros response stack_events w; simpl;
    destruct (NextToken response) as [token |]; try reflexivity.
  unfold call_describe.
  destruct (describe_stack_events E region stackname (Some token))
    as [response' | e]; simpl; [| apply observes_sent].
  etrans; [apply (observes_sent (mkRequest region stackname (Some token))) |].
  apply IH.
Qed.

Lemma keeps_get_cfn_stack_events (E : Env) fuel stackname region :
  keeps R (get_cfn_stack_events E fuel stackname region).
Proof using Type*.
  intros w. unfold get_cfn_stack_events, try_body, call_describe.
  destruct (describe_stack_events E region stackname None) as [response | e].
  - pose proof (keeps_follow_tokens E fuel region stackname response
                  ([] ++ StackEvents response)
                  (sent (mkRequest region stackname None) w)) as Hloop.
    assert (R w (sent (mkRequest region stackname None) w)) as Hfirst
      by apply observes_sent.
    destruct (follow_tokens _ _ _ _ _ _ _) as [[[] | e |] [events w1]];
      simpl in *; try (by etrans).
    destruct (is_ClientError e); simpl; [| by etrans].
    etrans; [exact Hfirst |]. etrans; [exact Hloop |]. apply observes_emit.
  - destruct (is_ClientError e); simpl; [| apply observes_sent].
    etrans; [apply (observes_sent (mkRequest region stackname None)) |].
    apply observes_emit.
Qed.

Lemma keeps_get_cfnlogs (E : Env) fuel stackname region :
  keeps R (get_cfnlogs E fuel stackname region).
Proof using Type*.
  unfold get_cfnlogs. apply keeps_bind.
  { apply keeps_act. intros w. apply observes_emit. }
  intros _. apply keeps_bind; [apply keeps_get_cfn_stack_events |].
  intros events. apply keeps_lift.
Qed.

End Observed.

Section Appended.

Context (R : relation World) (logpath : string) `{!Appends R logpath}.

#[local] Instance appended_observes : Observes R := appends_observes.

Lemma keeps_write_report (E : Env) region stackname reason cfnlogs :
  keeps R (write_report E logpath region stackname reason cfnlogs).
Proof using Type*.
  intros w. rewrite write_report_run. simpl.
  etrans; [apply (appends_write (report_block E region stackname reason cfnlogs
                                   (strftime E (clock w)))) |].
  apply observes_tick.
Qed.

(** [write_logs] acts on the world by logging, sending requests, reading
    the clock, and opening and writing [logpath], and in no other way. *)
Lemma keeps_write_logs (E : Env) fuel :
  ∀ stack_id, keeps R (write_logs E fuel stack_id logpath).
Proof using Type*.
  induction fuel as [|fuel IH]; intros stack_id.
  - intros w. reflexivity.
  - rewrite write_logs_S. cbv zeta.
    apply (keeps_bind R); [by apply (keeps_get_cfnlogs R) |].
    intros [|first rest].
    { apply (keeps_act R). intros w. apply observes_emit. }
    apply (keeps_bind R); [by apply (keeps_lift R) |]. intros reason.
    apply (keeps_bind R); [by apply (keeps_now R) |]. intros tested_on.
    apply (keeps_bind R).
    { destruct (eqb _ launch_successful);
        apply (keeps_act R); intros w; apply observes_emit. }
    intros _. apply (keeps_bind R).
    { apply (keeps_act R). intros w. apply observes_emit. }
    intros _. apply (keeps_bind R); [apply keeps_write_report |].
    intros _. apply (keeps_bind R); [by apply (keeps_lift R) |].
    intros resources. apply (keeps_for_each R). intros resource _.
    destruct (String.eqb _ _); [apply IH | by apply (keeps_ret R)].
Qed.

End Appended.

#[local] Instance grows_preorder : PreOrder grows.
Proof.
  split.
  - by intros w.
  - intros w1 w2 w3 (Hl12 & Hr12 & Hc12) (Hl23 & Hr23 & Hc23).
    split; [by etrans | split; [by etrans | lia]].
Qed.

#[local] Instance grows_observes : Observes grows.
Proof.
  split; [apply _ | ..]; intros; unfold grows; simpl;
    (split; [| split]); try done; try apply prefix_app_r; try done; lia.
Qed.

#[local] Instance grows_appends logpath : Appends grows logpath.
Proof. split; [apply _ | ..]; by intros. Qed.

#[local] Instance preserves_files_preorder : PreOrder preserves_files.
Proof.
  split.
  - intros w path. split; [done |]. exists EmptyString.
    by rewrite append_empty_r.
  - intros w1 w2 w3 H12 H23 path.
    destruct (H12 path) as [Hsome12 [a Ha]], (H23 path) as [Hsome23 [b Hb]].
    split; [by auto |]. exists (a +:+ b). by rewrite Hb, Ha, append_assoc.
Qed.

#[local] Instance preserves_files_observes : Observes preserves_files.
Proof.
  split; [apply _ | ..]; intros; intros path; unfold content; simpl;
    (split; [done |]); exists EmptyString; by rewrite append_empty_r.
Qed.

#[local] Instance preserves_files_appends logpath :
  Appends preserves_files logpath.
Proof.
  split; [apply _ | ..].
  - intros w path. destruct (decide (path = logpath)) as [-> | Hne].
    + split; [intros _; simpl; rewrite lookup_insert_eq; by eexists |].
      exists EmptyString. unfold content at 1; simpl.
      by rewrite lookup_insert_eq, append_empty_r.
    + unfold content; simpl. rewrite lookup_insert_ne by done.
      split; [done |]. exists EmptyString. by rewrite append_empty_r.
  - intros text w path. destruct (decide (path = logpath)) as [-> | Hne].
    + split; [intros _; simpl; rewrite lookup_insert_eq; by eexists |].
      exists text. apply content_file_write.
    + unfold content; simpl. rewrite lookup_insert_ne by done.
      split; [done |]. exists EmptyString. by rewrite append_empty_r.
Qed.

(** ** Further properties of the loops *)

(** A loop raises exactly when one of its turns does, the turns before it
    having returned; the turns after it are not run. *)
Lemma for_each_Raise {A} (body : A → M unit) (xs : list A) w e w' :
  for_each body xs w = (Raise e, w') ↔
  ∃ before x after w1,
    xs = before ++ x :: after
    ∧ visits body before w w1
    ∧ body x w1 = (Raise e, w').
Proof.
  revert w. induction xs as [|x rest IH]; intros w; simpl.
  - split; [done |]. intros (before & y & after & w1 & Heq & _).
    by destruct before.
  - unfold bind. destruct (body x w) as [[[] | e0 |] w0] eqn:Hx.
    + rewrite IH. split.
      * intros (before & y & after & w1 & -> & Hvisits & Hy).
        exists (x :: before), y, after, w1. split; [done |].
        split; [by econstructor | done].
      * intros (before & y & after & w1 & Heq & Hvisits & Hy).
        destruct before as [|x' before]; simplify_eq/=;
          [inversion Hvisits; subst; congruence |].
        inversion Hvisits as [| ? ? ? w2 ? Hx' Hrest]; subst.
        rewrite Hx in Hx'. injection Hx' as <-.
        by exists before, y, after, w1.
    + split.
      * intros [= <- <-]. exists [], x, rest, w. split; [done |].
        split; [constructor | done].
      * intros (before & y & after & w1 & Heq & Hvisits & Hy).
        destruct before as [|x' before]; simplify_eq/=.
        -- inversion Hvisits; subst. congruence.
        -- inversion Hvisits as [| ? ? ? w2 ? Hx' Hrest]; subst. congruence.
    + split; [done |].
      intros (before & y & after & w1 & Heq & Hvisits & Hy).
      destruct before as [|x' before]; simplify_eq/=.
      * inversion Hvisits; subst. congruence.
      * inversion Hvisits as [| ? ? ? w2 ? Hx' Hrest]; subst. congruence.
Qed.

(** The two loops of [createcfnlogs] as one, over the stacks of all tests. *)
Lemma createcfnlogs_flat (E : Env) fuel testdata_list logpath w :
  createcfnlogs E fuel testdata_list logpath w =
  for_each (λ stack, write_logs E fuel (StackId stack) (path_of E logpath stack))
    (concat (map get_test_stacks testdata_list))
    (emit (mkLogRecord INFO "Collecting CloudFormation Logs" None) w).
Proof.
  unfold createcfnlogs, LOG_info. rewrite bind_act.
  rewrite for_each_concat. by apply for_each_ext.
Qed.

Lemma keeps_createcfnlogs (R : relation World) `{!Observes R} (E : Env)
    fuel testdata_list logpath :
  (∀ stack, stack ∈ concat (map get_test_stacks testdata_list) →
            Appends R (path_of E logpath stack)) →
  keeps R (createcfnlogs E fuel testdata_list logpath).
Proof.
  intros Hpaths w. rewrite createcfnlogs_flat.
  etrans; [apply (observes_emit
                    (mkLogRecord INFO "Collecting CloudFormation Logs" None)) |].
  apply (keeps_for_each R). intros stack Hstack.
  pose proof (Hpaths stack Hstack) as Happends.
  apply (keeps_write_logs R (path_of E logpath stack)).
Qed.

(** X18. Neither [write_logs] nor [createcfnlogs] ever deletes or
    truncates a file: whatever way the run ends, every file that existed
    still exists, and every file holds the text it held, followed by what
    the run appended. *)
Theorem runs_preserve_files (E : Env) (fuel : nat) (stack_id logpath : string)
    (testdata_list : list TestData) (w : World) (path : string) :
  (let w' := (write_logs E fuel stack_id logpath w).2 in
   (is_Some (files w !! path) → is_Some (files w' !! path))
   ∧ ∃ added, content w' path = content w path +:+ added)
  ∧ (let w' := (createcfnlogs E fuel testdata_list logpath w).2 in
     (is_Some (files w !! path) → is_Some (files w' !! path))
     ∧ ∃ added, content w' path = content w path +:+ added).
Proof.
  split.
  - apply (keeps_write_logs preserves_files logpath E fuel stack_id w).
  - apply (keeps_createcfnlogs preserves_files E fuel testdata_list logpath).
    intros stack _. apply _.
Qed.

(** X10. [createcfnlogs] stops at the first stack whose report raises: it
    raises [e] exactly when the reports of the stacks before one of them, in
    the order of the input, have returned and the report of that one raises
    [e]; the stacks after it get no report. *)
Theorem createcfnlogs_raises (E : Env) (fuel : nat)
    (testdata_list : list TestData) (logpath : string) (w w' : World)
    (e : exn) :
  let write_stack := λ stack,
    write_logs E fuel (StackId stack) (path_of E logpath stack) in
  let w0 := emit (mkLogRecord INFO "Collecting CloudFormation Logs" None) w in
  createcfnlogs E fuel testdata_list logpath w = (Raise e, w') ↔
  ∃ before stack after w1,
    concat (map get_test_stacks testdata_list) = before ++ stack :: after
    ∧ visits write_stack before w0 w1
    ∧ write_stack stack w1 = (Raise e, w').
Proof. cbv zeta. rewrite createcfnlogs_flat. apply for_each_Raise. Qed.

(** ** Further properties of the report writer *)

Lemma bind_Raise {A B} (m : M A) (k : A → M B) w e w' :
  m w = (Raise e, w') → bind m k w = (Raise e, w').
Proof. unfold bind. by intros ->. Qed.

Lemma bind_OutOfFuel {A B} (m : M A) (k : A → M B) w :
  (m w).1 = OutOfFuel → (bind m k w).1 = OutOfFuel.
Proof. unfold bind. destruct (m w) as [[a | e |] w1]; by simpl. Qed.

(** [get_cfnlogs] while the fetch raises. *)
Lemma get_cfnlogs_fetch_error (E : Env) fuel stackname region pages e w :
  paged E region stackname None pages (Some e) →
  is_ClientError e = false →
  length pages ≤ fuel →
  get_cfnlogs E fuel stackname region w =
    (Raise e,
     sent_all (map (mkRequest region stackname)
                   (token_trail None pages (Some e)))
       (emit (collecting stackname) w)).
Proof.
  intros Hpaged Hclass Hfuel. unfold get_cfnlogs, LOG_info. rewrite bind_act.
  apply bind_Raise. by apply get_cfn_stack_events_other_error.
Qed.

(** [get_cfnlogs] on a stack served in one page. *)
Lemma get_cfnlogs_one_page (E : Env) fuel stackname region response w :
  describe_stack_events E region stackname None = Ok response →
  NextToken response = None →
  Forall (λ event, has_required_keys event = true) (StackEvents response) →
  ∃ events,
    get_cfnlogs E fuel stackname region w =
      (Ret events,
       sent (mkRequest region stackname None) (emit (collecting stackname) w))
    ∧ Forall2 (λ event details, event_details event = Ok details)
              (StackEvents response) events.
Proof.
  intros Hcall Hlast (events & Hnorm & Hall)%normalize_complete.
  exists events. split; [| done].
  unfold get_cfnlogs, LOG_info. rewrite bind_act.
  assert (get_cfn_stack_events E fuel stackname region
            (emit (collecting stackname) w) =
          (Ret (StackEvents response),
           sent (mkRequest region stackname None)
                (emit (collecting stackname) w))) as Hfetch.
  { unfold get_cfn_stack_events, try_body, call_describe. rewrite Hcall.
    destruct fuel; simpl; by rewrite Hlast. }
  unfold collecting in Hfetch. rewrite (bind_Ret _ _ _ _ _ Hfetch).
  by rewrite Hnorm.
Qed.

(** X11. On a stack whose first request the provider refuses with a
    [ClientError] (a stack that does not exist, a denied access),
    [write_logs] returns normally without touching any file: it sends that
    one request and logs three records, the announcement, the failure of
    the fetch and the absence of events. *)
Theorem write_logs_refused (E : Env) (fuel : nat) (stack_id logpath : string)
    (w : World) (e : exn) :
  let stackname := stack_name (parse_stack_info E stack_id) in
  let region := region (parse_stack_info E stack_id) in
  describe_stack_events E region stackname None = Err e →
  is_ClientError e = true →
  write_logs E (S fuel) stack_id logpath w =
    (Ret tt,
     mkWorld (files w)
       (LOG w ++ [collecting stackname;
                  mkLogRecord ERROR (fetch_error_message stackname region e)
                    None;
                  mkLogRecord ERROR no_events_message None])
       (requests w ++ [mkRequest region stackname None])
       (clock w)).
Proof.
  intros stackname region Hcall Hclass.
  assert (get_cfnlogs E fuel stackname region w =
            (Ret [],
             emit (mkLogRecord ERROR (fetch_error_message stackname region e)
                     None)
               (sent (mkRequest region stackname None)
                  (emit (collecting stackname) w)))) as Hlogs.
  { unfold get_cfnlogs, LOG_info. rewrite bind_act.
    assert (get_cfn_stack_events E fuel stackname region
              (emit (collecting stackname) w) =
            (Ret [],
             emit (mkLogRecord ERROR (fetch_error_message stackname region e)
                     None)
               (sent (mkRequest region stackname None)
                  (emit (collecting stackname) w)))) as Hfetch.
    { unfold get_cfn_stack_events, try_body, call_describe.
      by rewrite Hcall, Hclass. }
    unfold collecting in Hfetch. by rewrite (bind_Ret _ _ _ _ _ Hfetch). }
  rewrite (write_logs_empty E fuel stack_id logpath w _ Hlogs).
  unfold emit, sent; simpl. by rewrite <- !app_assoc.
Qed.

(** X12. When a request of the fetch raises an exception that is not a
    [ClientError], on the first page or on a later one, [write_logs] raises
    it in its turn: no file is touched, and the log holds the announcement
    and neither a console message nor an error record. *)
Theorem write_logs_fetch_error (E : Env) (fuel : nat)
    (stack_id logpath : string) (pages : list Response) (e : exn) (w : World) :
  let stackname := stack_name (parse_stack_info E stack_id) in
  let region := region (parse_stack_info E stack_id) in
  paged E region stackname None pages (Some e) →
  is_ClientError e = false →
  length pages ≤ fuel →
  write_logs E (S fuel) stack_id logpath w =
    (Raise e,
     mkWorld (files w)
       (LOG w ++ [collecting stackname])
       (requests w
        ++ map (mkRequest region stackname) (token_trail None pages (Some e)))
       (clock w)).
Proof.
  intros stackname region Hpaged Hclass Hfuel.
  rewrite write_logs_S. cbv zeta. fold stackname region.
  by rewrite (bind_Raise _ _ _ _ _
                (get_cfnlogs_fetch_error E fuel stackname region pages e w
                   Hpaged Hclass Hfuel)).
Qed.

(** X13. When the resources of a stack with events cannot be listed,
    [write_logs] raises what the lister raised, after the console message
    and the report: the file holds the block of the stack, and no nested
    stack is visited. *)
Theorem write_logs_resources_error (E : Env) (fuel : nat)
    (stack_id logpath : string) (w w1 : World) (first : gmap string value)
    (rest : list (gmap string value)) (e : exn) :
  let stackname := stack_name (parse_stack_info E stack_id) in
  let region := region (parse_stack_info E stack_id) in
  get_cfnlogs E fuel stackname region w = (Ret (first :: rest), w1) →
  get_resources E stackname region = Err e →
  ∃ reason,
    outcome_reason first = Ok reason
    ∧ write_logs E (S fuel) stack_id logpath w =
        (Raise e, reported E stackname region logpath (first :: rest) reason w1)
    ∧ files (write_logs E (S fuel) stack_id logpath w).2 !! logpath =
        Some (content w logpath
              +:+ report_block E region stackname reason (first :: rest)
                    (strftime E (S (clock w)))).
Proof.
  intros stackname region Hlogs Hresources.
  destruct (get_cfnlogs_reason E _ _ _ _ _ _ _ Hlogs) as [reason Hreason].
  exists reason. split; [done |].
  pose proof (get_cfnlogs_silent E fuel stackname region w) as [Hfiles Hclock].
  rewrite Hlogs in Hfiles, Hclock. simpl in Hfiles, Hclock.
  assert (write_logs E (S fuel) stack_id logpath w =
            (Raise e,
             reported E stackname region logpath (first :: rest) reason w1))
    as Hrun.
  { rewrite (write_logs_nonempty E fuel stack_id logpath w first rest w1 reason)
      by done.
    fold stackname region. by rewrite Hresources. }
  split; [exact Hrun |]. rewrite Hrun. unfold reported, content; simpl.
  by rewrite lookup_insert_eq, Hfiles, Hclock.
Qed.

(** X14. [write_logs] stops at the first nested stack whose report raises:
    on a stack with events and resources, it raises [e] exactly when the
    calls on the nested stacks before one of them, in the order of the
    resources, have returned and the call on that one raises [e]; the nested
    stacks after it are not visited. *)
Theorem write_logs_raises (E : Env) (fuel : nat) (stack_id logpath : string)
    (w w1 : World) (first : gmap string value)
    (rest : list (gmap string value)) (resources : list Resource) :
  let stackname := stack_name (parse_stack_info E stack_id) in
  let region := region (parse_stack_info E stack_id) in
  get_cfnlogs E fuel stackname region w = (Ret (first :: rest), w1) →
  get_resources E stackname region = Ok resources →
  ∃ reason,
    outcome_reason first = Ok reason
    ∧ let nested :=
        filter (λ resource, resourceType resource = "AWS::CloudFormation::Stack")
               resources in
      let recurse := λ resource,
        write_logs E fuel (physicalId resource) logpath in
      let w2 := reported E stackname region logpath (first :: rest) reason w1 in
      ∀ e w',
        write_logs E (S fuel) stack_id logpath w = (Raise e, w') ↔
        ∃ before failing after w3,
          nested = before ++ failing :: after
          ∧ visits recurse before w2 w3
          ∧ recurse failing w3 = (Raise e, w').
Proof.
  intros stackname region Hlogs Hresources.
  destruct (get_cfnlogs_reason E _ _ _ _ _ _ _ Hlogs) as [reason Hreason].
  exists reason. split; [done |]. intros nested recurse w2 e w'.
  rewrite (write_logs_nonempty E fuel stack_id logpath w first rest w1 reason)
    by done.
  fold stackname region w2. rewrite Hresources. unfold lift.
  rewrite (bind_Ret (ret resources) _ _ resources _ eq_refl).
  rewrite descend_filter. apply for_each_Raise.
Qed.

(** The first event of a list that [get_cfnlogs] returns has a status and
    a status reason. *)
Lemma get_cfnlogs_first (E : Env) fuel stackname region w w' first rest :
  get_cfnlogs E fuel stackname region w = (Ret (first :: rest), w') →
  ∃ status text,
    first !! "ResourceStatus" = Some status
    ∧ first !! "ResourceStatusReason" = Some text.
Proof.
  intros (stack_events & _ & Hnorm)%get_cfnlogs_Ret.
  apply normalize_Ok in Hnorm as (normalized & Heq & Hall). simpl in Heq.
  subst normalized.
  apply Forall2_cons_inv_r in Hall as (raw & raws & Hfirst & _ & _).
  destruct (event_details_status _ _ Hfirst) as [_ [status Hstatus]].
  exists status. eexists. split; [done |]. by eapply event_details_reason.
Qed.

(** X15. The console message of a stack with events is logged as a pass,
    at info severity with the tag [PASS], when the status of the first
    event is "CREATE_COMPLETE", and also when the status is another one
    but the status reason of that event reads "Stack launch was
    successful"; in every other case it is logged at error severity,
    without tag. *)
Theorem write_logs_console_severity (E : Env) (fuel : nat)
    (stack_id logpath : string) (w w1 : World) (first : gmap string value)
    (rest : list (gmap string value)) :
  let stackname := stack_name (parse_stack_info E stack_id) in
  let region := region (parse_stack_info E stack_id) in
  get_cfnlogs E fuel stackname region w = (Ret (first :: rest), w1) →
  ∃ reason,
    outcome_reason first = Ok reason
    ∧ let msg :=
        console_message E stackname region logpath (strftime E (clock w1))
          reason in
      let passed :=
        first !! "ResourceStatus" = Some (Str "CREATE_COMPLETE")
        ∨ first !! "ResourceStatusReason" =
            Some (Str "Stack launch was successful") in
      let w' := (write_logs E (S fuel) stack_id logpath w).2 in
      (passed →
       LOG w' !! length (LOG w1) = Some (mkLogRecord INFO msg (Some PASS)))
      ∧ (¬ passed →
         LOG w' !! length (LOG w1) = Some (mkLogRecord ERROR msg None)).
Proof.
  intros stackname region Hlogs.
  destruct (get_cfnlogs_reason E _ _ _ _ _ _ _ Hlogs) as [reason Hreason].
  destruct (get_cfnlogs_first E _ _ _ _ _ _ _ Hlogs)
    as (status & text & Hstatus & Htext).
  exists reason. split; [done |]. intros msg passed w'.
  assert (reason = launch_successful ↔ passed) as Hpassed.
  { unfold passed. rewrite Hstatus, Htext.
    destruct (decide (status = CREATE_COMPLETE)) as [-> | Hne].
    - rewrite (outcome_reason_complete first Hstatus) in Hreason.
      injection Hreason as <-. split; [by left | done].
    - rewrite (outcome_reason_other first status Hstatus Hne), Htext in Hreason.
      injection Hreason as <-. split.
      + intros ->. by right.
      + intros [[= ?] | [= ?]]; done. }
  assert (LOG w' !! length (LOG w1) =
            Some (if eqb reason launch_successful
                  then mkLogRecord INFO msg (Some PASS)
                  else mkLogRecord ERROR msg None)) as Hrecord.
  { assert (grows (reported E stackname region logpath (first :: rest)
                     reason w1) w') as (Hprefix & _).
    { unfold w'.
      rewrite (write_logs_nonempty E fuel stack_id logpath w first rest w1
                 reason) by done.
      apply (keeps_bind grows); [apply (keeps_lift grows) |].
      intros resources. apply (keeps_for_each grows). intros resource _.
      destruct (String.eqb _ _);
        [apply (keeps_write_logs grows logpath) | apply (keeps_ret grows)]. }
    eapply prefix_lookup_Some; [| exact Hprefix].
    unfold reported; simpl. rewrite lookup_app_r by done.
    rewrite Nat.sub_diag. by destruct (eqb reason launch_successful). }
  rewrite Hrecord. unfold eqb. split.
  - intros Hyes%Hpassed. by rewrite bool_decide_eq_true_2.
  - intros Hno. rewrite bool_decide_eq_false_2; [done |].
    intros Hyes%Hpassed. by apply Hno.
Qed.

(** X16. [write_logs] keeps no record of the stacks it has visited: on a
    stack with events whose first nested stack is the stack itself, each
    call fetches the events, writes a block and calls itself again, so the
    call does not return, however deep the recursion is allowed to go;
    allowed depth [n], it has sent [n] requests. *)
Theorem write_logs_self_nested (E : Env) (stack_id logpath : string)
    (response : Response) (resources : list Resource) (self : Resource)
    (siblings : list Resource) :
  let stackname := stack_name (parse_stack_info E stack_id) in
  let region := region (parse_stack_info E stack_id) in
  describe_stack_events E region stackname None = Ok response →
  NextToken response = None →
  StackEvents response ≠ [] →
  Forall (λ event, has_required_keys event = true) (StackEvents response) →
  get_resources E stackname region = Ok resources →
  filter (λ resource, resourceType resource = "AWS::CloudFormation::Stack")
         resources = self :: siblings →
  physicalId self = stack_id →
  ∀ fuel w,
    let run := write_logs E fuel stack_id logpath w in
    run.1 = OutOfFuel ∧ length (requests run.2) = length (requests w) + fuel.
Proof.
  intros stackname region Hcall Hlast Hevents Hkeys Hresources Hnested Hself.
  induction fuel as [|fuel IH]; intros w; cbv zeta.
  - simpl. split; [done | lia].
  - destruct (get_cfnlogs_one_page E fuel stackname region response w
                Hcall Hlast Hkeys) as (events & Hlogs & Hall).
    destruct events as [|first rest].
    { apply Forall2_nil_inv_r in Hall. done. }
    destruct (get_cfnlogs_reason E _ _ _ _ _ _ _ Hlogs) as [reason Hreason].
    rewrite (write_logs_nonempty E fuel stack_id logpath w first rest _ reason)
      by done.
    fold stackname region. rewrite Hresources. unfold lift.
    rewrite (bind_Ret (ret resources) _ _ resources _ eq_refl).
    rewrite descend_filter.
    change nested_stack_type with "AWS::CloudFormation::Stack".
    rewrite Hnested. cbn [for_each]. rewrite Hself.
    specialize (IH (reported E stackname region logpath (first :: rest) reason
                      (sent (mkRequest region stackname None)
                         (emit (collecting stackname) w)))).
    cbv zeta in IH. destruct IH as [Hout Hlength]. unfold bind.
    destruct (write_logs E fuel stack_id logpath _) as [[[] | e |] w'];
      simpl in Hout; try done.
    simpl in *. rewrite Hlength, length_app. simpl. split; [done | lia].
Qed.


(** ** The further properties on the example providers *)

Lemma get_cfnlogs_keys_witness :
  get_cfnlogs Fixture.env 0 "child" "us-east-1" Fixture.w0 =
    (Ret [Fixture.normalized "CREATE_FAILED" "Resource X failed"],
     Fixture.collected "child")
  ∧ Forall (λ details, dom details = normalized_keys)
           [Fixture.normalized "CREATE_FAILED" "Resource X failed"].
Proof.
  assert (get_cfnlogs Fixture.env 0 "child" "us-east-1" Fixture.w0 =
            (Ret [Fixture.normalized "CREATE_FAILED" "Resource X failed"],
             Fixture.collected "child")) as Hlogs
    by reflexivity.
  split; [exact Hlogs |].
  exact (get_cfnlogs_keys Fixture.env 0 "child" "us-east-1" Fixture.w0 _ _
           Hlogs).
Defined.

Lemma get_cfnlogs_fields_witness :
  get_cfnlogs Scenario.env 0 "quirk" "us-east-1" Fixture.w0 =
    (Ret [Fixture.normalized "CREATE_FAILED" "Stack launch was successful"],
     Fixture.collected "quirk")
  ∧ ∃ stack_events,
      get_cfn_stack_events Scenario.env 0 "quirk" "us-east-1"
        (emit (collecting "quirk") Fixture.w0)
        = (Ret stack_events, Fixture.collected "quirk")
      ∧ Forall2 fields_projected stack_events
          [Fixture.normalized "CREATE_FAILED" "Stack launch was successful"]
      ∧ Forall (λ details,
                  event_details details = Err (KeyError "Timestamp"))
          [Fixture.normalized "CREATE_FAILED" "Stack launch was successful"].
Proof.
  assert (get_cfnlogs Scenario.env 0 "quirk" "us-east-1" Fixture.w0 =
            (Ret [Fixture.normalized "CREATE_FAILED"
                    "Stack launch was successful"],
             Fixture.collected "quirk")) as Hlogs
    by reflexivity.
  split; [exact Hlogs |].
  exact (get_cfnlogs_fields Scenario.env 0 "quirk" "us-east-1" Fixture.w0 _ _
           Hlogs).
Defined.

Lemma get_cfnlogs_key_error_witness :
  get_cfn_stack_events Scenario.env 0 "torn" "us-east-1"
    (emit (collecting "torn") Fixture.w0)
    = (Ret ([Fixture.event "CREATE_FAILED" None]
            ++ Scenario.torn_event :: []),
       Fixture.collected "torn")
  ∧ Forall (λ event, has_required_keys event = true)
           [Fixture.event "CREATE_FAILED" None]
  ∧ first_missing Scenario.torn_event = Some "ResourceType"
  ∧ get_cfnlogs Scenario.env 0 "torn" "us-east-1" Fixture.w0 =
      (Raise (KeyError "ResourceType"), Fixture.collected "torn").
Proof.
  assert (get_cfn_stack_events Scenario.env 0 "torn" "us-east-1"
            (emit (collecting "torn") Fixture.w0)
          = (Ret ([Fixture.event "CREATE_FAILED" None]
                  ++ Scenario.torn_event :: []),
             Fixture.collected "torn")) as Hfetch
    by reflexivity.
  assert (Forall (λ event, has_required_keys event = true)
                 [Fixture.event "CREATE_FAILED" None]) as Hsound
    by (repeat constructor).
  assert (first_missing Scenario.torn_event = Some "ResourceType") as Hmissing
    by reflexivity.
  split; [exact Hfetch |]. split; [exact Hsound |]. split; [exact Hmissing |].
  exact (get_cfnlogs_key_error Scenario.env 0 "torn" "us-east-1" Fixture.w0 _
           _ _ _ _ Hfetch Hsound Hmissing).
Defined.

Lemma get_cfnlogs_paged_witness :
  paged Fixture.env "us-east-1" "flaky" None Fixture.flaky_pages
        (Some (ClientError "Throttling"))
  ∧ from_option is_ClientError true (Some (ClientError "Throttling")) = true
  ∧ Forall (λ event, has_required_keys event = true)
           (concat (map StackEvents Fixture.flaky_pages))
  ∧ length Fixture.flaky_pages ≤ 1
  ∧ ∃ events,
      (get_cfnlogs Fixture.env 1 "flaky" "us-east-1" Fixture.w0).1 = Ret events
      ∧ Forall2 (λ event details, event_details event = Ok details)
                (concat (map StackEvents Fixture.flaky_pages)) events
      ∧ requests (get_cfnlogs Fixture.env 1 "flaky" "us-east-1" Fixture.w0).2 =
          requests Fixture.w0
          ++ map (mkRequest "us-east-1" "flaky")
                 (token_trail None Fixture.flaky_pages
                    (Some (ClientError "Throttling"))).
Proof.
  assert (paged Fixture.env "us-east-1" "flaky" None Fixture.flaky_pages
            (Some (ClientError "Throttling"))) as Hpaged.
  { eapply paged_next; [reflexivity | reflexivity |].
    eapply paged_fail; reflexivity. }
  assert (Forall (λ event, has_required_keys event = true)
                 (concat (map StackEvents Fixture.flaky_pages))) as Hkeys
    by (repeat constructor).
  assert (length Fixture.flaky_pages ≤ 1) as Hfuel by (simpl; lia).
  split; [exact Hpaged |]. split; [reflexivity |]. split; [exact Hkeys |].
  split; [exact Hfuel |].
  exact (get_cfnlogs_paged Fixture.env 1 "flaky" "us-east-1"
           Fixture.flaky_pages (Some (ClientError "Throttling")) Fixture.w0
           Hpaged eq_refl Hkeys Hfuel).
Defined.

Lemma get_cfn_stack_events_endless_witness :
  (∀ token, ∃ response next,
     describe_stack_events Scenario.env "us-east-1" "loop" token = Ok response
     ∧ NextToken response = Some next)
  ∧ (get_cfn_stack_events Scenario.env 5 "loop" "us-east-1" Fixture.w0).1
      = OutOfFuel
  ∧ length (requests
              (get_cfn_stack_events Scenario.env 5 "loop" "us-east-1"
                 Fixture.w0).2) = length (requests Fixture.w0) + 6.
Proof.
  assert (∀ token, ∃ response next,
            describe_stack_events Scenario.env "us-east-1" "loop" token
              = Ok response
            ∧ NextToken response = Some next) as Hprovider.
  { intros token. eexists _, _. split; reflexivity. }
  split; [exact Hprovider |].
  exact (get_cfn_stack_events_endless Scenario.env "loop" "us-east-1"
           Hprovider 5 Fixture.w0).
Defined.

Lemma write_logs_refused_witness :
  describe_stack_events Fixture.env "us-east-1" "ghost" None =
    Err (ClientError "Stack does not exist")
  ∧ is_ClientError (ClientError "Stack does not exist") = true
  ∧ write_logs Fixture.env 1 "arn:ghost" "logs/ghost-us-east-1-cfnlogs.txt"
      Fixture.w0 =
      (Ret tt,
       mkWorld ∅
         [collecting "ghost";
          mkLogRecord ERROR
            (fetch_error_message "ghost" "us-east-1"
               (ClientError "Stack does not exist")) None;
          mkLogRecord ERROR no_events_message None]
         [mkRequest "us-east-1" "ghost" None] 0).
Proof.
  split; [reflexivity |]. split; [reflexivity |].
  exact (write_logs_refused Fixture.env 0 "arn:ghost"
           "logs/ghost-us-east-1-cfnlogs.txt" Fixture.w0
           (ClientError "Stack does not exist") eq_refl eq_refl).
Defined.

Lemma write_logs_fetch_error_witness :
  paged Scenario.env "us-east-1" "cut" None
    [mkResponse [Fixture.event "UPDATE_COMPLETE" None] (Some "t1")]
    (Some (BotoCoreError "Read timeout on endpoint URL"))
  ∧ is_ClientError (BotoCoreError "Read timeout on endpoint URL") = false
  ∧ write_logs Scenario.env 2 "arn:cut" "logs/cut-us-east-1-cfnlogs.txt"
      Fixture.w0 =
      (Raise (BotoCoreError "Read timeout on endpoint URL"),
       mkWorld ∅ [collecting "cut"]
         [mkRequest "us-east-1" "cut" None;
          mkRequest "us-east-1" "cut" (Some "t1")] 0).
Proof.
  assert (paged Scenario.env "us-east-1" "cut" None
            [mkResponse [Fixture.event "UPDATE_COMPLETE" None] (Some "t1")]
            (Some (BotoCoreError "Read timeout on endpoint URL"))) as Hpaged.
  { eapply paged_next; [reflexivity | reflexivity |].
    eapply paged_fail; reflexivity. }
  split; [exact Hpaged |]. split; [reflexivity |].
  refine (write_logs_fetch_error Scenario.env 1 "arn:cut"
            "logs/cut-us-east-1-cfnlogs.txt" _ _ Fixture.w0 Hpaged eq_refl _).
  simpl. lia.
Defined.

Lemma write_logs_resources_error_witness :
  get_cfnlogs Scenario.env 0 "locked" "us-east-1" Fixture.w0 =
    (Ret [Fixture.normalized "CREATE_COMPLETE" EmptyString],
     Fixture.collected "locked")
  ∧ get_resources Scenario.env "locked" "us-east-1" =
      Err (ClientError "AccessDenied")
  ∧ ∃ reason,
      outcome_reason (Fixture.normalized "CREATE_COMPLETE" EmptyString)
        = Ok reason
      ∧ write_logs Scenario.env 1 "arn:locked"
          "logs/locked-us-east-1-cfnlogs.txt" Fixture.w0 =
          (Raise (ClientError "AccessDenied"),
           reported Scenario.env "locked" "us-east-1"
             "logs/locked-us-east-1-cfnlogs.txt"
             [Fixture.normalized "CREATE_COMPLETE" EmptyString] reason
             (Fixture.collected "locked")).
Proof.
  assert (get_cfnlogs Scenario.env 0 "locked" "us-east-1" Fixture.w0 =
            (Ret [Fixture.normalized "CREATE_COMPLETE" EmptyString],
             Fixture.collected "locked")) as Hlogs
    by reflexivity.
  split; [exact Hlogs |]. split; [reflexivity |].
  destruct (write_logs_resources_error Scenario.env 0 "arn:locked"
              "logs/locked-us-east-1-cfnlogs.txt" Fixture.w0
              (Fixture.collected "locked") _ []
              (ClientError "AccessDenied") Hlogs eq_refl)
    as (reason & Hreason & Hrun & _).
  exists reason. split; [exact Hreason | exact Hrun].
Defined.

Lemma write_logs_raises_witness :
  get_cfnlogs Scenario.env 1 "house" "us-east-1" Fixture.w0 =
    (Ret [Fixture.normalized "CREATE_COMPLETE" EmptyString],
     Fixture.collected "house")
  ∧ get_resources Scenario.env "house" "us-east-1" =
      Ok [Fixture.nested "arn:child"; Fixture.nested "arn:offline";
          Fixture.nested "arn:pending"]
  ∧ ∃ reason,
      outcome_reason (Fixture.normalized "CREATE_COMPLETE" EmptyString)
        = Ok reason
      ∧ ∀ e w',
          write_logs Scenario.env 2 "arn:house"
            "logs/house-us-east-1-cfnlogs.txt" Fixture.w0 = (Raise e, w') ↔
          ∃ before failing after w3,
            [Fixture.nested "arn:child"; Fixture.nested "arn:offline";
             Fixture.nested "arn:pending"] = before ++ failing :: after
            ∧ visits (λ resource,
                  write_logs Scenario.env 1 (physicalId resource)
                    "logs/house-us-east-1-cfnlogs.txt")
                before
                (reported Scenario.env "house" "us-east-1"
                   "logs/house-us-east-1-cfnlogs.txt"
                   [Fixture.normalized "CREATE_COMPLETE" EmptyString] reason
                   (Fixture.collected "house")) w3
            ∧ write_logs Scenario.env 1 (physicalId failing)
                "logs/house-us-east-1-cfnlogs.txt" w3 = (Raise e, w').
Proof.
  assert (get_cfnlogs Scenario.env 1 "house" "us-east-1" Fixture.w0 =
            (Ret [Fixture.normalized "CREATE_COMPLETE" EmptyString],
             Fixture.collected "house")) as Hlogs
    by reflexivity.
  split; [exact Hlogs |]. split; [reflexivity |].
  exact (write_logs_raises Scenario.env 1 "arn:house"
           "logs/house-us-east-1-cfnlogs.txt" Fixture.w0
           (Fixture.collected "house") _ [] _ Hlogs eq_refl).
Defined.

Lemma write_logs_console_severity_witness :
  get_cfnlogs Scenario.env 0 "quirk" "us-east-1" Fixture.w0 =
    (Ret [Fixture.normalized "CREATE_FAILED" "Stack launch was successful"],
     Fixture.collected "quirk")
  ∧ ∃ reason,
      outcome_reason
        (Fixture.normalized "CREATE_FAILED" "Stack launch was successful")
        = Ok reason
      ∧ LOG (write_logs Scenario.env 1 "arn:quirk"
               "logs/quirk-us-east-1-cfnlogs.txt" Fixture.w0).2
          !! length (LOG (Fixture.collected "quirk")) =
        Some (mkLogRecord INFO
                (console_message Scenario.env "quirk" "us-east-1"
                   "logs/quirk-us-east-1-cfnlogs.txt"
                   (strftime Scenario.env 0) reason)
                (Some PASS)).
Proof.
  assert (get_cfnlogs Scenario.env 0 "quirk" "us-east-1" Fixture.w0 =
            (Ret [Fixture.normalized "CREATE_FAILED"
                    "Stack launch was successful"],
             Fixture.collected "quirk")) as Hlogs
    by reflexivity.
  split; [exact Hlogs |].
  destruct (write_logs_console_severity Scenario.env 0 "arn:quirk"
              "logs/quirk-us-east-1-cfnlogs.txt" Fixture.w0
              (Fixture.collected "quirk") _ [] Hlogs)
    as (reason & Hreason & Hpass & _).
  exists reason. split; [exact Hreason |]. apply Hpass. right. reflexivity.
Defined.

Lemma write_logs_self_nested_witness :
  describe_stack_events Scenario.env "us-east-1" "selfref" None =
    Ok (mkResponse [Fixture.event "CREATE_COMPLETE" None] None)
  ∧ get_resources Scenario.env "selfref" "us-east-1" =
      Ok [Fixture.bucket; Fixture.nested "arn:selfref"]
  ∧ (write_logs Scenario.env 4 "arn:selfref"
       "logs/selfref-us-east-1-cfnlogs.txt" Fixture.w0).1 = OutOfFuel
  ∧ length (requests
              (write_logs Scenario.env 4 "arn:selfref"
                 "logs/selfref-us-east-1-cfnlogs.txt" Fixture.w0).2)
    = length (requests Fixture.w0) + 4.
Proof.
  split; [reflexivity |]. split; [reflexivity |].
  refine (write_logs_self_nested Scenario.env "arn:selfref"
            "logs/selfref-us-east-1-cfnlogs.txt"
            (mkResponse [Fixture.event "CREATE_COMPLETE" None] None)
            [Fixture.bucket; Fixture.nested "arn:selfref"]
            (Fixture.nested "arn:selfref") []
            eq_refl eq_refl _ _ eq_refl eq_refl eq_refl 4 Fixture.w0).
  - discriminate.
  - repeat constructor.
Defined.

(** Three nested stacks of which the second cannot be reached: the report
    of the parent and of the first child are written, the exception of the
    second reaches the caller, and the third is never asked for. *)
Example second_child_unreachable :
  (write_logs Scenario.env 2 "arn:house" "logs/house-us-east-1-cfnlogs.txt"
     Fixture.w0).1 = Raise (BotoCoreError "Could not connect to the endpoint URL")
  ∧ requests (write_logs Scenario.env 2 "arn:house"
                "logs/house-us-east-1-cfnlogs.txt" Fixture.w0).2 =
      [mkRequest "us-east-1" "house" None;
       mkRequest "us-east-1" "child" None;
       mkRequest "us-east-1" "offline" None].
Proof. split; reflexivity. Qed.

(** A batch whose first stack cannot be reached: no report is written,
    not even that of the second stack. *)
Example batch_stops_at_first_failure :
  createcfnlogs Fixture.env 2
    [mkTestData [mkTestStack "arn:offline"];
     mkTestData [mkTestStack "arn:parent"]] "logs" Fixture.w0 =
  (Raise (BotoCoreError "Could not connect to the endpoint URL"),
   mkWorld ∅
     [mkLogRecord INFO "Collecting CloudFormation Logs" None;
      collecting "offline"]
     [mkRequest "us-east-1" "offline" None] 0).
Proof. reflexivity. Qed.
